(** * dbutils.c: connection parameters, node records and primary discovery

    A shallow embedding of [dbutils.c] of repmgr.  C strings are modelled as
    [string] values (the bytes before the terminating NUL, which stays
    implicit); a [char *] that may be [NULL] is an [option string]; the two
    parallel arrays of a [t_conninfo_param_list] are lists updated by index;
    a C [int] is a [Z] (the file does no arithmetic on them); the libpq
    driver is an explicit world that is threaded through every call. *)

From Stdlib Require Import ZArith Lia Bool Ascii String.
From Stdlib Require Import DecimalString DecimalZ DecimalPos.
From Stdlib Require Import Sorting.Sorted Sorting.Permutation.
From stdpp Require Import base list strings.

Local Open Scope string_scope.
Local Open Scope Z_scope.
Local Open Scope list_scope.

(* ===================================================================== *)
(** ** C library helpers *)
(* ===================================================================== *)

Module CString.

(** [strcmp]: only the sign of the result is specified by C, so the model
    returns -1, 0 or 1, comparing characters as unsigned bytes. *)
Fixpoint strcmp (a b : string) : Z :=
  match a, b with
  | EmptyString, EmptyString => 0
  | EmptyString, String _ _ => -1
  | String _ _, EmptyString => 1
  | String c1 a', String c2 b' =>
      match N.compare (N_of_ascii c1) (N_of_ascii c2) with
      | Eq => strcmp a' b'
      | Lt => -1
      | Gt => 1
      end
  end.

(** [s[0] != '\0'] *)
Definition nonempty (s : string) : bool :=
  match s with
  | EmptyString => false
  | String _ _ => true
  end.

(** [strncpy(dst, src, n)] seen from [dst]: at most [n] bytes of [src]. *)
Fixpoint strncpy (n : nat) (src : string) : string :=
  match n, src with
  | O, _ => EmptyString
  | S _, EmptyString => EmptyString
  | S n', String c src' => String c (strncpy n' src')
  end.

Definition is_space (c : ascii) : bool :=
  let n := N_of_ascii c in
  (N.eqb n 32 || (N.leb 9 n && N.leb n 13))%bool.

Definition digit_of (c : ascii) : option Z :=
  let n := N_of_ascii c in
  if (N.leb 48 n && N.leb n 57)%bool then Some (Z.of_N n - 48) else None.

Fixpoint atoi_digits (acc : Z) (s : string) : Z :=
  match s with
  | EmptyString => acc
  | String c s' =>
      match digit_of c with
      | Some d => atoi_digits (10 * acc + d) s'
      | None => acc
      end
  end.

Fixpoint skip_space (s : string) : string :=
  match s with
  | String c s' => if is_space c then skip_space s' else s
  | EmptyString => s
  end.

(** [atoi]: leading white space, an optional sign, then decimal digits;
    anything else ends the number. *)
Definition atoi (s : string) : Z :=
  match skip_space s with
  | String "-"%char s' => - atoi_digits 0 s'
  | String "+"%char s' => atoi_digits 0 s'
  | s' => atoi_digits 0 s'
  end.

End CString.

Import CString.

(* ===================================================================== *)
(** ** conninfo manipulation functions *)
(* ===================================================================== *)

Module ParamList.

(** [t_conninfo_param_list]: [size] and two arrays of [size + 1] pointers. *)
Record t_conninfo_param_list := mk_param_list {
  size : nat;
  keywords : list (option string);
  values : list (option string)
}.

(** One [PQconninfoOption] of the driver: a keyword and its value. *)
Record PQconninfoOption := mk_option {
  keyword : string;
  val : option string
}.

(** How a scanning loop is left: by its [return], or by its exit test
    failing at index [c]. *)
Inductive scan (A : Type) :=
| Returned (a : A)
| Fell (c : nat).
Arguments Returned {A} a.
Arguments Fell {A} c.

(** The loop of [param_set]; [n] is [size - c].  An index outside the array
    reads as [NULL]. *)
Fixpoint param_set_loop (pl : t_conninfo_param_list) (param value : string)
    (n c : nat) : scan t_conninfo_param_list :=
  match n with
  | O => Fell c
  | S n' =>
      match keywords pl !! c with
      | Some (Some kw) =>
          if Z.eqb (strcmp kw param) 0
          then Returned (mk_param_list (size pl) (keywords pl)
                           (<[c := Some value]> (values pl)))
          else param_set_loop pl param value n' (S c)
      | _ => Fell c
      end
  end.

Definition param_set (pl : t_conninfo_param_list) (param value : string)
    : t_conninfo_param_list :=
  match param_set_loop pl param value (size pl) 0 with
  | Returned pl' => pl'
  | Fell c =>
      if (c <? size pl)%nat
      then mk_param_list (size pl)
             (<[c := Some param]> (keywords pl))
             (<[c := Some value]> (values pl))
      else pl
  end.

(** The loop of [param_get]; the result is the returned pointer. *)
Fixpoint param_get_loop (pl : t_conninfo_param_list) (param : string)
    (n c : nat) : scan (option string) :=
  match n with
  | O => Fell c
  | S n' =>
      match keywords pl !! c with
      | Some (Some kw) =>
          if Z.eqb (strcmp kw param) 0
          then match values pl !! c with
               | Some (Some v) => if nonempty v then Returned (Some v)
                                  else Returned None
               | _ => Returned None
               end
          else param_get_loop pl param n' (S c)
      | _ => Fell c
      end
  end.

Definition param_get (pl : t_conninfo_param_list) (param : string)
    : option string :=
  match param_get_loop pl param (size pl) 0 with
  | Returned r => r
  | Fell _ => None
  end.

(** [initialize_conninfo_params]; [defs] is what [PQconndefaults] returns. *)
Definition initialize_conninfo_params (defs : list PQconninfoOption)
    (set_defaults : bool) : t_conninfo_param_list :=
  let sz := length defs in
  let pl := mk_param_list sz (replicate (S sz) None) (replicate (S sz) None) in
  if set_defaults
  then fold_left
         (fun pl def =>
            match val def with
            | Some v => if nonempty v then param_set pl (keyword def) v else pl
            | None => pl
            end)
         defs pl
  else pl.

(** The loop of [copy_conninfo_params]. *)
Fixpoint copy_conninfo_params_loop (dest source : t_conninfo_param_list)
    (n c : nat) : t_conninfo_param_list :=
  match n with
  | O => dest
  | S n' =>
      match keywords source !! c with
      | Some (Some kw) =>
          let dest' :=
            match values source !! c with
            | Some (Some v) => if nonempty v then param_set dest kw v else dest
            | _ => dest
            end in
          copy_conninfo_params_loop dest' source n' (S c)
      | _ => dest
      end
  end.

Definition copy_conninfo_params (dest source : t_conninfo_param_list)
    : t_conninfo_param_list :=
  copy_conninfo_params_loop dest source (size source) 0.

(** *** Reading a list *)

(** The keywords stored before the first [NULL]. *)
Fixpoint stored (kws : list (option string)) : list string :=
  match kws with
  | Some kw :: kws' => kw :: stored kws'
  | _ => []
  end.

(** Number of slots among the first [size] whose keyword is [k]. *)
Definition entries_for (pl : t_conninfo_param_list) (k : string) : nat :=
  length (filter (fun o => o = Some k) (take (size pl) (keywords pl))).

(** Number of slots in use. *)
Definition used (pl : t_conninfo_param_list) : nat :=
  length (stored (take (size pl) (keywords pl))).

(** The shape every list built by this file has: both arrays hold
    [size + 1] pointers, the keywords in use ([ks]) come first and are
    pairwise different, every other keyword slot is [NULL]. *)
Definition keyword_array (sz : nat) (ks : list string) : list (option string) :=
  (Some <$> ks) ++ replicate (S sz - length ks) None.

Definition well_formed (pl : t_conninfo_param_list) : Prop :=
  exists ks : list string,
    keywords pl = keyword_array (size pl) ks /\
    (length ks <= size pl)%nat /\
    NoDup ks /\
    length (values pl) = S (size pl).

End ParamList.

Import ParamList.

(* ===================================================================== *)
(** ** The driver (libpq) and the constants of repmgr.h *)
(* ===================================================================== *)

(** Constants that [dbutils.c] takes from its headers.  Their values are
    not part of this file, so everything below is stated for any values. *)
Class repmgr_h := {
  MAXLEN : nat;
  MAXCONNINFO : nat;
  MAX_QUERY_LEN : nat;
  NODE_NOT_FOUND : Z;
  NO_UPSTREAM_NODE : Z;
  ERR_DB_CON : Z
}.

Module Libpq.

(** A [PGconn *] is a handle; a [PGresult] is the value the driver built. *)
Definition PGconn := nat.

Inductive ConnStatusType := CONNECTION_OK | CONNECTION_BAD.

Inductive ExecStatusType :=
| PGRES_EMPTY_QUERY
| PGRES_COMMAND_OK
| PGRES_TUPLES_OK
| PGRES_BAD_RESPONSE
| PGRES_NONFATAL_ERROR
| PGRES_FATAL_ERROR.

Record PGresult := mk_result {
  resultStatus : ExecStatusType;
  tuples : list (list (option string))
}.

(** What a connection was asked for: a conninfo string ([PQconnectdb]) or
    two parallel arrays ([PQconnectdbParams]). *)
Inductive conn_target :=
| ByString (connection_string : string)
| ByParams (kws vals : list (option string)).

(** Everything the program does to the driver, and the one message of the
    log that carries data of a caller. *)
Inductive event :=
| EvConnect (target : conn_target) (c : PGconn)
| EvExec (c : PGconn) (query : string)
| EvFinish (c : PGconn)
| EvLogError (fmt : string) (arg : option string).

(** The world is the history of events, the latest first. *)
Definition world := list event.

(** The collaborator itself: what a connection's status is, what a
    statement returns ([None] is a [NULL] result) and what the conninfo
    parser makes of a string (a diagnostic, or the options).  Each answer
    may depend on everything that happened before. *)
Class libpq := {
  conn_status : world -> PGconn -> ConnStatusType;
  exec_result : world -> PGconn -> string -> option PGresult;
  conninfo_parse : string -> string + list PQconninfoOption
}.

(** A call either returns or leaves the process through [exit]. *)
Inductive outcome (A : Type) :=
| Ret (a : A)
| Exit (code : Z).
Arguments Ret {A} a.
Arguments Exit {A} code.

Definition M (A : Type) : Type := world -> outcome A * world.

Definition ret {A} (a : A) : M A := fun w => (Ret a, w).

Definition bind {A B} (m : M A) (k : A -> M B) : M B :=
  fun w =>
    match m w with
    | (Ret a, w') => k a w'
    | (Exit code, w') => (Exit code, w')
    end.

Definition exit {A} (code : Z) : M A := fun w => (Exit code, w).

Declare Scope libpq_scope.
Delimit Scope libpq_scope with libpq.
Notation "'let*' x ':=' m 'in' k" := (bind m (fun x => k))
  (at level 10, x name, m at level 100, k at level 200) : libpq_scope.
Notation "m '>>' k" := (bind m (fun _ => k))
  (at level 90, right associativity) : libpq_scope.
Local Open Scope libpq_scope.

Definition is_connect (e : event) : bool :=
  match e with EvConnect _ _ => true | _ => false end.

(** The handle a new connection gets: one that no earlier connection of
    this world has. *)
Definition fresh (w : world) : PGconn :=
  length (filter (fun e => is_connect e = true) w).

Definition ConnStatusType_eqb (a b : ConnStatusType) : bool :=
  match a, b with
  | CONNECTION_OK, CONNECTION_OK | CONNECTION_BAD, CONNECTION_BAD => true
  | _, _ => false
  end.

Definition ExecStatusType_eqb (a b : ExecStatusType) : bool :=
  match a, b with
  | PGRES_EMPTY_QUERY, PGRES_EMPTY_QUERY
  | PGRES_COMMAND_OK, PGRES_COMMAND_OK
  | PGRES_TUPLES_OK, PGRES_TUPLES_OK
  | PGRES_BAD_RESPONSE, PGRES_BAD_RESPONSE
  | PGRES_NONFATAL_ERROR, PGRES_NONFATAL_ERROR
  | PGRES_FATAL_ERROR, PGRES_FATAL_ERROR => true
  | _, _ => false
  end.

Section Driver.
Context {drv : libpq}.

Definition PQconnectdb (connection_string : string) : M PGconn :=
  fun w => let c := fresh w in (Ret c, EvConnect (ByString connection_string) c :: w).

Definition PQconnectdbParams (kws vals : list (option string)) : M PGconn :=
  fun w => let c := fresh w in (Ret c, EvConnect (ByParams kws vals) c :: w).

Definition PQstatus (c : PGconn) : M ConnStatusType :=
  fun w => (Ret (conn_status w c), w).

Definition PQexec (c : PGconn) (query : string) : M (option PGresult) :=
  fun w => (Ret (exec_result w c query), EvExec c query :: w).

Definition PQfinish (c : PGconn) : M unit :=
  fun w => (Ret tt, EvFinish c :: w).

Definition log_error (fmt : string) (arg : option string) : M unit :=
  fun w => (Ret tt, EvLogError fmt arg :: w).

End Driver.

(** [PQresultStatus] of a [NULL] result is [PGRES_FATAL_ERROR]. *)
Definition PQresultStatus (res : option PGresult) : ExecStatusType :=
  match res with
  | Some r => resultStatus r
  | None => PGRES_FATAL_ERROR
  end.

Definition PQntuples (res : option PGresult) : nat :=
  match res with
  | Some r => length (tuples r)
  | None => O
  end.

(** [PQgetvalue]: the text of a field, the empty string for an SQL null.
    A field outside the result reads as the empty string too. *)
Definition PQgetvalue (res : option PGresult) (row col : nat) : string :=
  match res with
  | Some r =>
      match tuples r !! row with
      | Some fields =>
          match fields !! col with
          | Some (Some v) => v
          | _ => EmptyString
          end
      | None => EmptyString
      end
  | None => EmptyString
  end.

Definition PQgetisnull (res : option PGresult) (row col : nat) : bool :=
  match res with
  | Some r =>
      match tuples r !! row with
      | Some fields =>
          match fields !! col with
          | Some (Some _) => false
          | _ => true
          end
      | None => true
      end
  | None => true
  end.

(** *** Reading a world *)

(** The connections a world has opened, the earliest first. *)
Definition opened (w : world) : list PGconn :=
  omap (fun e => match e with EvConnect _ c => Some c | _ => None end) (rev w).

(** The conninfo strings connections were asked for, the earliest first. *)
Definition connect_strings (w : world) : list string :=
  omap (fun e => match e with
                 | EvConnect (ByString s) _ => Some s
                 | _ => None
                 end) (rev w).

Definition finished (w : world) (c : PGconn) : bool :=
  existsb (fun e => match e with EvFinish c' => Nat.eqb c c' | _ => false end) w.

(** Connections of the world that were never given to [PQfinish]. *)
Definition unfinished (w : world) : list PGconn :=
  filter (fun c => finished w c = false) (opened w).

End Libpq.

Import Libpq.
Local Open Scope libpq_scope.

(* ===================================================================== *)
(** ** dbutils.c *)
(* ===================================================================== *)

Module Dbutils.

(** [t_server_type] and [t_node_info] of repmgr.h. *)
Inductive t_server_type := UNKNOWN | MASTER | STANDBY | WITNESS | BDR.

Record t_node_info := mk_node_info {
  node_id : Z;
  upstream_node_id : Z;
  type : t_server_type;
  node_name : string;
  conninfo : string;
  slot_name : string;
  priority : Z;
  active : bool;
  is_ready : bool;
  is_visible : bool;
  xlog_location : Z
}.


(** The conversion [%i] of the printf family. *)
Definition fmt_i (z : Z) : string := NilZero.string_of_int (Z.to_int z).

(** How a loop body ends: it falls to the next round ([continue] included)
    or returns from the function. *)
Inductive flow (A : Type) :=
| Continue
| Return (a : A).
Arguments Continue {A}.
Arguments Return {A} a.

(** The caller's memory that [get_master_connection] writes: the buffer
    [remote_conninfo] points to and the cell behind [master_id]
    ([None] when the pointer is [NULL]). *)
Record gmc_locals := mk_locals {
  remote_conninfo : string;
  master_id : option Z
}.

Section WithDriver.
Context {hdr : repmgr_h} {drv : libpq}.


Definition sqlquery_snprintf (formatted : string) : string :=
  strncpy (MAX_QUERY_LEN - 1) formatted.

Definition _set_config (conn : PGconn) (config_param sqlquery : string)
    : M bool :=
  let* res := PQexec conn sqlquery in
  if negb (ExecStatusType_eqb (PQresultStatus res) PGRES_COMMAND_OK)
  then ret false
  else ret true.

Definition set_config (conn : PGconn) (config_param config_value : string)
    : M bool :=
  let sqlquery :=
    sqlquery_snprintf
      ("SET " +:+ config_param +:+ " TO '" +:+ config_value +:+ "'") in
  _set_config conn config_param sqlquery.

(** [_establish_db_connection]; [log_notice] and [verbose_only] only choose
    how the failure is logged. *)
Definition _establish_db_connection (conninfo : string)
    (exit_on_error log_notice verbose_only : bool) : M PGconn :=
  let connection_string :=
    strncpy MAXLEN conninfo +:+ " fallback_application_name='repmgr'" in
  let* conn := PQconnectdb connection_string in
  let* st := PQstatus conn in
  if negb (ConnStatusType_eqb st CONNECTION_OK)
  then
    if exit_on_error
    then PQfinish conn >> exit ERR_DB_CON
    else ret conn
  else
    let* ok := set_config conn "synchronous_commit" "local" in
    if negb ok
    then
      if exit_on_error
      then PQfinish conn >> exit ERR_DB_CON
      else ret conn
    else ret conn.

Definition establish_db_connection (conninfo : string) (exit_on_error : bool)
    : M PGconn :=
  _establish_db_connection conninfo exit_on_error false false.

(** The loop of [establish_db_connection_by_params] that looks for the
    keyword [replication]. *)
Fixpoint has_replication (kws : list (option string)) : bool :=
  match kws with
  | Some kw :: kws' =>
      if Z.eqb (strcmp kw "replication") 0
      then true
      else has_replication kws'
  | _ => false
  end.

Definition establish_db_connection_by_params (kws vals : list (option string))
    (exit_on_error : bool) : M PGconn :=
  let* conn := PQconnectdbParams kws vals in
  let* st := PQstatus conn in
  if negb (ConnStatusType_eqb st CONNECTION_OK)
  then
    if exit_on_error
    then PQfinish conn >> exit ERR_DB_CON
    else ret conn
  else
    let replication_connection := has_replication kws in
    if negb replication_connection
    then
      let* ok := set_config conn "synchronous_commit" "local" in
      if negb ok
      then
        if exit_on_error
        then PQfinish conn >> exit ERR_DB_CON
        else ret conn
      else ret conn
    else ret conn.

(** [parse_conninfo_string].  [errmsg] is a [char *] passed by value:
    [PQconninfoParse] writes through the address of the parameter, that is
    into the callee's own copy.  The result is the returned flag, the list
    as the function leaves it, and that copy as it stands at the return;
    the copy dies with the call. *)
Definition parse_conninfo_string (conninfo_str : string)
    (param_list : t_conninfo_param_list) (errmsg : option string)
    (ignore_application_name : bool)
    : bool * t_conninfo_param_list * option string :=
  match conninfo_parse conninfo_str with
  | inl diagnostic => (false, param_list, Some diagnostic)
  | inr connOptions =>
      (true,
       fold_left
         (fun pl option =>
            match val option with
            | None => pl
            | Some v =>
                if negb (nonempty v) then pl
                else if (ignore_application_name &&
                         Z.eqb (strcmp (keyword option) "application_name") 0)%bool
                then pl
                else param_set pl (keyword option) v
            end)
         connOptions param_list,
       errmsg)
  end.

(** [establish_db_connection_as_user]; [defs] is what [PQconndefaults]
    returns.  The caller's [errmsg] is its own variable: the call hands
    over its value and gets nothing back. *)
Definition establish_db_connection_as_user (defs : list PQconninfoOption)
    (conninfo user : string) (exit_on_error : bool) : M (option PGconn) :=
  let errmsg : option string := None in
  let conninfo_params := initialize_conninfo_params defs false in
  let '(parse_success, conninfo_params, _) :=
    parse_conninfo_string conninfo conninfo_params errmsg true in
  if negb parse_success
  then
    log_error "unable to pass provided conninfo string:\n	 %s" errmsg >>
    ret None
  else
    let conninfo_params := param_set conninfo_params "user" user in
    let* conn :=
      establish_db_connection_by_params
        (keywords conninfo_params) (values conninfo_params) false in
    ret (Some conn).

Definition is_standby (conn : PGconn) : M Z :=
  let result := 0 in
  let sqlquery := "SELECT pg_catalog.pg_is_in_recovery()" in
  let* res := PQexec conn sqlquery in
  let result :=
    if (match res with None => true | Some _ => false end ||
        negb (ExecStatusType_eqb (PQresultStatus res) PGRES_TUPLES_OK))%bool
    then -1
    else if (Nat.eqb (PQntuples res) 1 &&
             Z.eqb (strcmp (PQgetvalue res 0 0) "t") 0)%bool
    then 1
    else result in
  ret result.

Definition get_master_connection_query : string :=
  "  SELECT node_id, conninfo, " +:+
  "         CASE WHEN type = 'master' THEN 1 ELSE 2 END AS type_priority" +:+
  "	   FROM repmgr.nodes " +:+
  "   WHERE type != 'witness' " +:+
  "ORDER BY active DESC, type_priority, priority, node_id".

(** One round of the loop of [get_master_connection], for row [i]. *)
Definition get_master_connection_body (res : option PGresult) (i : nat)
    (l : gmc_locals) : M (flow PGconn * gmc_locals) :=
  let node_id := atoi (PQgetvalue res i 0) in
  let l := mk_locals (strncpy MAXCONNINFO (PQgetvalue res i 1)) (master_id l) in
  let* remote_conn := establish_db_connection (remote_conninfo l) false in
  let* st := PQstatus remote_conn in
  if negb (ConnStatusType_eqb st CONNECTION_OK)
  then ret (Continue, l)
  else
    let* is_node_standby := is_standby remote_conn in
    if Z.eqb is_node_standby (-1)
    then PQfinish remote_conn >> ret (Continue, l)
    else if Z.eqb is_node_standby 0
    then
      let l :=
        match master_id l with
        | Some _ => mk_locals (remote_conninfo l) (Some node_id)
        | None => l
        end in
      ret (Return remote_conn, l)
    else PQfinish remote_conn >> ret (Continue, l).

(** The loop [for (i = 0; i < PQntuples(res); i++)], over the values [i]
    takes, and its [return NULL] at the end. *)
Fixpoint get_master_connection_loop (res : option PGresult) (rounds : list nat)
    (l : gmc_locals) : M (option PGconn * gmc_locals) :=
  match rounds with
  | [] => ret (None, l)
  | i :: rounds' =>
      let* r := get_master_connection_body res i l in
      match r with
      | (Return remote_conn, l') => ret (Some remote_conn, l')
      | (Continue, l') => get_master_connection_loop res rounds' l'
      end
  end.

(** [get_master_connection].  [master_id] is [None] for a [NULL] pointer
    and otherwise holds what the cell contains; [master_conninfo_out]
    likewise for the buffer.  The result is the returned connection and
    the two as the call leaves them. *)
Definition get_master_connection (conn : PGconn) (master_id : option Z)
    (master_conninfo_out : option string)
    : M (option PGconn * option Z * option string) :=
  let remote_conninfo_stack := EmptyString in
  let remote_conninfo :=
    match master_conninfo_out with
    | Some buf => buf
    | None => remote_conninfo_stack
    end in
  let master_id :=
    match master_id with
    | Some _ => Some NODE_NOT_FOUND
    | None => None
    end in
  let out (l : gmc_locals) :=
    match master_conninfo_out with
    | Some _ => Some (Dbutils.remote_conninfo l)
    | None => None
    end in
  let* res := PQexec conn get_master_connection_query in
  if negb (ExecStatusType_eqb (PQresultStatus res) PGRES_TUPLES_OK)
  then ret (None, master_id, master_conninfo_out)
  else
    let* r :=
      get_master_connection_loop res (seq 0 (PQntuples res))
        (mk_locals remote_conninfo master_id) in
    ret (fst r, Dbutils.master_id (snd r), out (snd r)).

Definition get_master_node_id_query : string :=
  "SELECT node_id		  " +:+
  "	 FROM repmgr.nodes	  " +:+
  " WHERE type = 'master' " +:+
  "   AND active IS TRUE  ".

Definition get_master_node_id (conn : PGconn) : M Z :=
  let* res := PQexec conn get_master_node_id_query in
  let retval :=
    if negb (ExecStatusType_eqb (PQresultStatus res) PGRES_TUPLES_OK)
    then NODE_NOT_FOUND
    else if Nat.eqb (PQntuples res) 0
    then NODE_NOT_FOUND
    else atoi (PQgetvalue res 0 0) in
  ret retval.

Definition atobool (value : string) : bool :=
  if Z.eqb (strcmp value "t") 0 then true else false.

Definition parse_node_type (type : string) : t_server_type :=
  if Z.eqb (strcmp type "master") 0 then MASTER
  else if Z.eqb (strcmp type "standby") 0 then STANDBY
  else if Z.eqb (strcmp type "witness") 0 then WITNESS
  else if Z.eqb (strcmp type "bdr") 0 then BDR
  else UNKNOWN.

Definition get_node_type_string (type : t_server_type) : string :=
  match type with
  | MASTER => "master"
  | STANDBY => "standby"
  | WITNESS => "witness"
  | BDR => "bdr"
  | UNKNOWN => "unknown"
  end.





(** *** Candidates that are not taken

    [candidate_rejected c w w']: the connection [c], just opened in world
    [w], is not taken for the primary, and the loop goes on in world [w']:
    its status is not [CONNECTION_OK]; or [is_standby] returns -1 (state
    unknown) or 1 (recovering), after which the loop has closed it. *)
Inductive candidate_rejected (c : PGconn) (w : world) : world -> Prop :=
| connection_failed :
    conn_status w c <> CONNECTION_OK ->
    candidate_rejected c w w
| probe_failed w' :
    conn_status w c = CONNECTION_OK ->
    is_standby c w = (Ret (-1), w') ->
    candidate_rejected c w (EvFinish c :: w')
| reports_recovering w' :
    conn_status w c = CONNECTION_OK ->
    is_standby c w = (Ret 1, w') ->
    candidate_rejected c w (EvFinish c :: w').

(** The conninfo of row [i] as the loop copies it into its buffer. *)
Definition candidate_conninfo (res : option PGresult) (i : nat) : string :=
  strncpy MAXCONNINFO (PQgetvalue res i 1).

(** [all_rejected res rounds w w']: probing the rows [rounds] of [res] one
    after the other from world [w] rejects every one of them and ends in
    world [w']. *)
Inductive all_rejected (res : option PGresult)
    : list nat -> world -> world -> Prop :=
| all_rejected_nil w : all_rejected res [] w w
| all_rejected_cons i rounds w c w1 w2 w' :
    establish_db_connection (candidate_conninfo res i) false w = (Ret c, w1) ->
    candidate_rejected c w1 w2 ->
    all_rejected res rounds w2 w' ->
    all_rejected res (i :: rounds) w w'.

(** The buffer after the rows [rounds] were looked at: it holds the
    conninfo of the last of them. *)
Definition buffer_after (res : option PGresult) (rounds : list nat)
    (buf : string) : string :=
  match last rounds with
  | Some i => candidate_conninfo res i
  | None => buf
  end.

(** The connection string [_establish_db_connection] hands to the driver. *)
Definition connection_string_of (conninfo : string) : string :=
  strncpy MAXLEN conninfo +:+ " fallback_application_name='repmgr'".

(** *** What the calls leave behind *)

(** The statement that [_establish_db_connection] sends first. *)
Definition synchronous_commit_local : string :=
  sqlquery_snprintf ("SET " +:+ "synchronous_commit" +:+ " TO '" +:+ "local" +:+ "'").

(** The events [establish_db_connection] adds to world [w]. *)
Definition connect_events (conninfo : string) (w : world) : list event :=
  let c := fresh w in
  let e := EvConnect (ByString (connection_string_of conninfo)) c in
  if ConnStatusType_eqb (conn_status (e :: w) c) CONNECTION_OK
  then [EvExec c synchronous_commit_local; e]
  else [e].

(** What the caller finds behind [master_id] and in [master_conninfo_out]
    after the call, from the locals of the loop. *)
Definition written {A} (pointer : option A) (value : A) : option A :=
  match pointer with
  | Some _ => Some value
  | None => None
  end.





End WithDriver.
End Dbutils.

Import Dbutils.

(* ===================================================================== *)
(** ** The relation repmgr.nodes and the node-list query *)
(* ===================================================================== *)

Module Registry.

(** Modelled from the spec: the relation [repmgr.nodes] is created outside
    this file; its columns are [node_id] (int, primary key), [type] (text),
    [upstream_node_id] (int, nullable), [node_name] (text), [conninfo]
    (text), [slot_name] (text, nullable), [priority] (int) and [active]
    (bool). *)
Record nodes_row := mk_row {
  r_node_id : Z;
  r_type : string;
  r_upstream_node_id : option Z;
  r_node_name : string;
  r_conninfo : string;
  r_slot_name : option string;
  r_priority : Z;
  r_active : bool
}.

(** [WHERE type != 'witness'] *)
Definition where_clause (r : nodes_row) : bool :=
  negb (String.eqb (r_type r) "witness").

(** [CASE WHEN type = 'master' THEN 1 ELSE 2 END AS type_priority] *)
Definition type_priority (r : nodes_row) : Z :=
  if String.eqb (r_type r) "master" then 1 else 2.

(** [ORDER BY active DESC, type_priority, priority, node_id]: does row [a]
    sort no later than row [b]?  For booleans [true] is the greater, so
    descending order puts it first. *)
Definition order_by_leb (a b : nodes_row) : bool :=
  match Bool.compare (r_active b) (r_active a) with
  | Lt => true
  | Gt => false
  | Eq =>
      match Z.compare (type_priority a) (type_priority b) with
      | Lt => true
      | Gt => false
      | Eq =>
          match Z.compare (r_priority a) (r_priority b) with
          | Lt => true
          | Gt => false
          | Eq => Z.leb (r_node_id a) (r_node_id b)
          end
      end
  end.

Fixpoint order_by_insert (r : nodes_row) (sorted : list nodes_row)
    : list nodes_row :=
  match sorted with
  | [] => [r]
  | x :: sorted' =>
      if order_by_leb r x then r :: sorted
      else x :: order_by_insert r sorted'
  end.

Fixpoint order_by (rows : list nodes_row) : list nodes_row :=
  match rows with
  | [] => []
  | r :: rows' => order_by_insert r (order_by rows')
  end.

(** The rows the node-list query of [get_master_connection] selects, in
    the order it asks for. *)
Definition master_candidates (nodes : list nodes_row) : list nodes_row :=
  order_by (List.filter where_clause nodes).

(** The select list [node_id, conninfo, type_priority], as text fields. *)
Definition select_list (r : nodes_row) : list (option string) :=
  [Some (fmt_i (r_node_id r)); Some (r_conninfo r);
   Some (fmt_i (type_priority r))].

Definition get_master_connection_result (nodes : list nodes_row) : PGresult :=
  mk_result PGRES_TUPLES_OK (map select_list (master_candidates nodes)).

(** The ordering of the claim in words: active rows first; among equals a
    row of type master first; then the smaller priority; then the smaller
    node id. *)
Definition probed_no_later (a b : nodes_row) : Prop :=
  (r_active a = true /\ r_active b = false) \/
  (r_active a = r_active b /\
   ((r_type a = "master" /\ r_type b <> "master") \/
    (((r_type a = "master") <-> (r_type b = "master")) /\
     (r_priority a < r_priority b \/
      (r_priority a = r_priority b /\ r_node_id a <= r_node_id b))))).

(** The sort key of a row as four integers, compared left to right. *)
Definition active_rank (r : nodes_row) : Z := if r_active r then 0 else 1.

Definition key_le (a b : nodes_row) : Prop :=
  active_rank a < active_rank b \/
  (active_rank a = active_rank b /\
   (type_priority a < type_priority b \/
    (type_priority a = type_priority b /\
     (r_priority a < r_priority b \/
      (r_priority a = r_priority b /\ r_node_id a <= r_node_id b))))).

End Registry.

Import Registry.

(* ===================================================================== *)
(** ** A small cluster to run the code on *)
(* ===================================================================== *)

Module Demo.

(** Values for the constants of the headers. *)
#[local] Instance demo_h : repmgr_h := {|
  MAXLEN := 1024;
  MAXCONNINFO := 1024;
  MAX_QUERY_LEN := 8192;
  NODE_NOT_FOUND := -1;
  NO_UPSTREAM_NODE := -1;
  ERR_DB_CON := 6
|}.

Definition node (id : Z) (type host : string) (priority : Z) : nodes_row :=
  mk_row id type None host ("host=" +:+ host) None priority true.

(** Node 1 is the primary of the registry, and its server is down; node 3
    is a standby in recovery; node 2 is registered as a standby but is not
    in recovery; node 5 answers no statement; node 6 answers the probe
    with no row; node 4 is a witness. *)
Definition node1 := node 1 "master" "node1" 100.
Definition node2 := node 2 "standby" "node2" 100.
Definition node3 := node 3 "standby" "node3" 50.
Definition node4 := node 4 "witness" "node4" 0.
Definition node5 := node 5 "standby" "node5" 100.
Definition node6 := node 6 "standby" "node6" 100.

(** The conninfo string a connection of the world was opened with. *)
Fixpoint target_of (w : world) (c : PGconn) : option string :=
  match w with
  | EvConnect (ByString s) c' :: w' =>
      if Nat.eqb c c' then Some s else target_of w' c
  | _ :: w' => target_of w' c
  | [] => None
  end.

Definition serves (w : world) (c : PGconn) (n : nodes_row) : bool :=
  match target_of w c with
  | Some s => String.eqb s (connection_string_of (r_conninfo n))
  | None => false
  end.

Definition demo_status (w : world) (c : PGconn) : ConnStatusType :=
  if serves w c node1 then CONNECTION_BAD else CONNECTION_OK.

Definition demo_exec (nodes : list nodes_row) (w : world) (c : PGconn)
    (query : string) : option PGresult :=
  if serves w c node5 then None
  else if String.eqb query get_master_connection_query
  then Some (get_master_connection_result nodes)
  else if String.eqb query "SELECT pg_catalog.pg_is_in_recovery()"
  then
    if serves w c node6 then Some (mk_result PGRES_TUPLES_OK [])
    else if serves w c node3 then Some (mk_result PGRES_TUPLES_OK [[Some "t"]])
    else Some (mk_result PGRES_TUPLES_OK [[Some "f"]])
  else if String.eqb query get_master_node_id_query
  then Some (mk_result PGRES_TUPLES_OK [[Some "1"]])
  else Some (mk_result PGRES_COMMAND_OK []).

(** The conninfo parser of the demo: a string without [=] is refused. *)
Definition demo_parse (s : string) : string + list PQconninfoOption :=
  match index 0 "=" s with
  | None =>
      inl ("missing = after " +:+ s +:+ " in connection info string")
  | Some n =>
      inr [mk_option (substring 0 n s)
             (Some (substring (S n) (String.length s - S n) s))]
  end.

Definition demo_driver (nodes : list nodes_row) : libpq := {|
  conn_status := demo_status;
  exec_result := demo_exec nodes;
  conninfo_parse := demo_parse
|}.

(** The caller is connected to node 3. *)
Definition w0 : world :=
  [EvConnect (ByString (connection_string_of (r_conninfo node3))) 0%nat].

(** The registry of three clusters. *)
Definition cluster := [node2; node4; node3; node1].
Definition cluster_without_primary := [node1; node3; node5].
Definition cluster_with_silent_node := [node1; node3; node6].

(** What [PQconndefaults] returns in the demo, and a list made from it. *)
Definition demo_defs : list PQconninfoOption :=
  [mk_option "host" None; mk_option "port" (Some "5432");
   mk_option "user" None].

Definition demo_list : t_conninfo_param_list :=
  initialize_conninfo_params demo_defs false.

End Demo.

Import Demo.

(* ===================================================================== *)
(** ** dbutils.c, the remaining functions *)
(* ===================================================================== *)

(** Constants of the headers that only the node record functions use. *)
Class node_record_h := {
  NODE_RECORD_NOT_FOUND : Z;
  NODE_RECORD_QUERY_ERROR : Z;
  InvalidXLogRecPtr : Z
}.

Module DbutilsRest.

(** [conn_to_param_list]; [connOptions] is what [PQconninfo] returns for
    the connection (no option at all when it returns [NULL]). *)
Definition conn_to_param_list (connOptions : list PQconninfoOption)
    (param_list : t_conninfo_param_list) : t_conninfo_param_list :=
  fold_left
    (fun pl option =>
       match val option with
       | None => pl
       | Some v =>
           if negb (nonempty v) then pl
           else param_set pl (keyword option) v
       end)
    connOptions param_list.

Section WithDriver.
Context {hdr : repmgr_h} {rec_h : node_record_h} {drv : libpq}.

Definition get_server_version_query : string :=
  "SELECT pg_catalog.current_setting('server_version_num'), " +:+
  "       pg_catalog.current_setting('server_version')".

(** [get_server_version]; [server_version] is [None] for a [NULL] pointer
    and otherwise what the caller's buffer holds.  The result is the
    returned number and the buffer as the call leaves it.  The message of
    the failure carries the driver's text only and is, as for the other
    functions, no event of the world. *)
Definition get_server_version (conn : PGconn) (server_version : option string)
    : M (Z * option string) :=
  let* res := PQexec conn get_server_version_query in
  if negb (ExecStatusType_eqb (PQresultStatus res) PGRES_TUPLES_OK)
  then ret (-1, server_version)
  else
    let server_version :=
      match server_version with
      | Some _ => Some (PQgetvalue res 0 0)
      | None => None
      end in
    ret (atoi (PQgetvalue res 0 0), server_version).

(** [_populate_node_record]: every field of [node_info] is overwritten. *)
Definition _populate_node_record (res : option PGresult)
    (node_info : t_node_info) (row : nat) : t_node_info :=
  mk_node_info
    (atoi (PQgetvalue res row 0))
    (if PQgetisnull res row 2
     then NO_UPSTREAM_NODE
     else atoi (PQgetvalue res row 2))
    (parse_node_type (PQgetvalue res row 1))
    (strncpy MAXLEN (PQgetvalue res row 3))
    (strncpy MAXLEN (PQgetvalue res row 4))
    (strncpy MAXLEN (PQgetvalue res row 5))
    (atoi (PQgetvalue res row 6))
    (atobool (PQgetvalue res row 7))
    false
    false
    InvalidXLogRecPtr.

(** [_get_node_record]: the returned number and [node_info] as the call
    leaves it. *)
Definition _get_node_record (conn : PGconn) (sqlquery : string)
    (node_info : t_node_info) : M (Z * t_node_info) :=
  let* res := PQexec conn sqlquery in
  if negb (ExecStatusType_eqb (PQresultStatus res) PGRES_TUPLES_OK)
  then ret (NODE_RECORD_QUERY_ERROR, node_info)
  else
    let ntuples := PQntuples res in
    if Nat.eqb ntuples 0
    then ret (NODE_RECORD_NOT_FOUND, node_info)
    else ret (Z.of_nat ntuples, _populate_node_record res node_info 0).

Definition get_node_record_query (node_id : Z) : string :=
  "SELECT node_id, type, upstream_node_id, node_name, conninfo, slot_name, priority, active" +:+
  "  FROM repmgr.nodes " +:+
  " WHERE node_id = " +:+ fmt_i node_id.

Definition get_node_record (conn : PGconn) (node_id : Z)
    (node_info : t_node_info) : M (Z * t_node_info) :=
  _get_node_record conn (get_node_record_query node_id) node_info.

End WithDriver.
End DbutilsRest.

Import DbutilsRest.

(* ===================================================================== *)
(** ** What the functions are measured against *)
(* ===================================================================== *)

Module Reading.

(** *** Parameter lists *)

(** The keywords a list holds: those before the first [NULL], among the
    first [size] slots. *)
Definition keys (pl : t_conninfo_param_list) : list string :=
  stored (take (size pl) (keywords pl)).

(** Setting the keywords of [entries] to their values, one after the
    other. *)
Definition set_all (entries : list (string * string))
    (pl : t_conninfo_param_list) : t_conninfo_param_list :=
  fold_left (fun pl e => param_set pl (fst e) (snd e)) entries pl.

(** The value the last entry for [k] carries. *)
Fixpoint last_value (entries : list (string * string)) (k : string)
    : option string :=
  match entries with
  | [] => None
  | e :: rest =>
      match last_value rest k with
      | Some v => Some v
      | None => if String.eqb (fst e) k then Some (snd e) else None
      end
  end.

(** The options of the driver that carry a value which is not empty, as
    entries; [skip] names a keyword to leave out. *)
Definition valued (skip : option string) (options : list PQconninfoOption)
    : list (string * string) :=
  omap (fun o =>
          match val o with
          | Some v =>
              if negb (nonempty v) then None
              else match skip with
                   | Some k => if String.eqb (keyword o) k then None
                               else Some (keyword o, v)
                   | None => Some (keyword o, v)
                   end
          | None => None
          end) options.

(** The entries of two parallel arrays, up to the first [NULL] keyword,
    that carry a value which is not empty. *)
Fixpoint stored_entries (kws vals : list (option string))
    : list (string * string) :=
  match kws with
  | Some kw :: kws' =>
      match vals with
      | Some v :: _ => if nonempty v then [(kw, v)] else []
      | _ => []
      end ++ stored_entries kws' (tail vals)
  | _ => []
  end.

(** *** Node records *)

(** A node record as a row of the select list of [get_node_record]:
    numbers in decimal, the type by its name, SQL null for no upstream and
    for an empty slot name, [t] and [f] for the flag. *)
Definition node_info_row `{repmgr_h} (node_info : t_node_info)
    : list (option string) :=
  [Some (fmt_i (node_id node_info));
   Some (get_node_type_string (type node_info));
   (if Z.eqb (upstream_node_id node_info) NO_UPSTREAM_NODE
    then None
    else Some (fmt_i (upstream_node_id node_info)));
   Some (node_name node_info);
   Some (conninfo node_info);
   (if nonempty (slot_name node_info)
    then Some (slot_name node_info)
    else None);
   Some (fmt_i (priority node_info));
   Some (if active node_info then "t" else "f")].

(** The record with the fields that are not stored at their defaults. *)
Definition as_read `{node_record_h} (node_info : t_node_info) : t_node_info :=
  mk_node_info (node_id node_info) (upstream_node_id node_info)
    (type node_info) (node_name node_info) (conninfo node_info)
    (slot_name node_info) (priority node_info) (active node_info)
    false false InvalidXLogRecPtr.

(** A row of [repmgr.nodes] as the select list of [get_node_record]. *)
Definition nodes_row_fields (r : nodes_row) : list (option string) :=
  [Some (fmt_i (r_node_id r));
   Some (r_type r);
   option_map fmt_i (r_upstream_node_id r);
   Some (r_node_name r);
   Some (r_conninfo r);
   r_slot_name r;
   Some (fmt_i (r_priority r));
   Some (if r_active r then "t" else "f")].

(** [SELECT ... FROM repmgr.nodes WHERE node_id = %i] *)
Definition get_node_record_result (nodes : list nodes_row) (id : Z)
    : PGresult :=
  mk_result PGRES_TUPLES_OK
    (map nodes_row_fields
       (List.filter (fun r => Z.eqb (r_node_id r) id) nodes)).

(** The record [get_node_record] is to read from a row. *)
Definition node_info_of `{repmgr_h} `{node_record_h} (r : nodes_row)
    : t_node_info :=
  mk_node_info (r_node_id r)
    (match r_upstream_node_id r with
     | Some u => u
     | None => NO_UPSTREAM_NODE
     end)
    (parse_node_type (r_type r))
    (r_node_name r) (r_conninfo r)
    (match r_slot_name r with
     | Some s => s
     | None => EmptyString
     end)
    (r_priority r) (r_active r) false false InvalidXLogRecPtr.

(** [WHERE type = 'master' AND active IS TRUE] *)
Definition active_master (r : nodes_row) : bool :=
  (String.eqb (r_type r) "master" && r_active r)%bool.

(** The select list [node_id] of [get_master_node_id]. *)
Definition node_id_field (r : nodes_row) : list (option string) :=
  [Some (fmt_i (r_node_id r))].

End Reading.

Import Reading.

(* ===================================================================== *)
(** ** More lists and servers to run the code on *)
(* ===================================================================== *)

Module DemoRest.

(** A list of three slots with every slot in use. *)
Definition full_list : t_conninfo_param_list :=
  param_set (param_set (param_set demo_list "host" "db1") "port" "5432")
    "user" "repmgr".

(** A list of five slots with one in use. *)
Definition roomy_list : t_conninfo_param_list :=
  param_set
    (initialize_conninfo_params
       [mk_option "host" None; mk_option "port" None; mk_option "user" None;
        mk_option "dbname" None; mk_option "sslmode" None] false)
    "sslmode" "require".

(** Values for the constants of the node record functions. *)
#[local] Instance demo_rec_h : node_record_h := {|
  NODE_RECORD_NOT_FOUND := 0;
  NODE_RECORD_QUERY_ERROR := -1;
  InvalidXLogRecPtr := 0
|}.

(** The demo driver, answering also the query of [get_node_record] for the
    node [id] and the query of [get_server_version]. *)
Definition record_exec (nodes : list nodes_row) (id : Z) (w : world)
    (c : PGconn) (query : string) : option PGresult :=
  if serves w c node5 then None
  else if String.eqb query (get_node_record_query id)
  then Some (get_node_record_result nodes id)
  else if String.eqb query get_server_version_query
  then Some (mk_result PGRES_TUPLES_OK [[Some "90605"; Some "9.6.5"]])
  else demo_exec nodes w c query.

Definition record_driver (nodes : list nodes_row) (id : Z) : libpq := {|
  conn_status := demo_status;
  exec_result := record_exec nodes id;
  conninfo_parse := demo_parse
|}.

(** A world in which the caller is connected to node 5, which answers no
    statement. *)
Definition w5 : world :=
  [EvConnect (ByString (connection_string_of (hdr := demo_h)
                          (r_conninfo node5))) 0%nat].

(** A registry that holds a witness only. *)
Definition cluster_of_witness := [node4].

(** A node record as a program holds it. *)
Definition standby_info : t_node_info :=
  mk_node_info 3 1 STANDBY "node3" "host=node3" "repmgr_slot_3" 50 true
    true true 7.

End DemoRest.

Import DemoRest.

(* ===================================================================== *)
(** * Properties *)
(* ===================================================================== *)

(** Case analysis on the test of the first conditional of the goal. *)
Ltac case_if :=
  match goal with
  | |- context [if ?b then _ else _] => destruct b eqn:?
  end.

(** Running the driver calls of a goal. *)
Ltac run_driver :=
  cbv beta iota zeta delta
    [bind ret exit PQconnectdb PQconnectdbParams PQstatus PQexec PQfinish
     log_error].

(** Closing a goal of the demo by running both sides. *)
Ltac by_running := vm_compute; first [reflexivity | discriminate | lia].

(** Rejections of the demo: a server that is down, a probe that fails, a
    standby in recovery. *)
Ltac reject_down :=
  eapply all_rejected_cons;
    [vm_compute; reflexivity | apply connection_failed; by_running |].
Ltac reject_failed :=
  eapply all_rejected_cons;
    [vm_compute; reflexivity
    | eapply probe_failed; [by_running | vm_compute; reflexivity] |].
Ltac reject_recovering :=
  eapply all_rejected_cons;
    [vm_compute; reflexivity
    | eapply reports_recovering; [by_running | vm_compute; reflexivity] |].

(* ===================================================================== *)
(** ** C strings and conninfo parameter lists *)
(* ===================================================================== *)

Lemma strcmp_refl a : strcmp a a = 0.
Proof.
  induction a as [|c a IH]; simpl; [reflexivity|].
  rewrite N.compare_refl. exact IH.
Qed.

Lemma strcmp_eq a b : strcmp a b = 0 -> a = b.
Proof.
  revert b. induction a as [|c a IH]; intros [|d b]; simpl; try discriminate.
  - reflexivity.
  - destruct (N.compare (N_of_ascii c) (N_of_ascii d)) eqn:E; try discriminate.
    intros H. apply N.compare_eq in E.
    f_equal; [|apply IH; exact H].
    rewrite <- (ascii_N_embedding c), <- (ascii_N_embedding d), E. reflexivity.
Qed.

Lemma strcmp_eqb_true a : Z.eqb (strcmp a a) 0 = true.
Proof. rewrite strcmp_refl. reflexivity. Qed.

Lemma strcmp_eqb_false a b : a <> b -> Z.eqb (strcmp a b) 0 = false.
Proof.
  intros Hne. apply Z.eqb_neq. intros H. apply Hne, strcmp_eq, H.
Qed.

Lemma strncpy_fits n s : (String.length s <= n)%nat -> strncpy n s = s.
Proof.
  revert n. induction s as [|c s IH]; intros [|n]; simpl; intros H;
    try reflexivity; try lia.
  f_equal. apply IH. lia.
Qed.



(** *** Reading back a number written with [%i] *)

Lemma atoi_digits_acc d : forall p,
  atoi_digits (Z.pos p) (NilEmpty.string_of_uint d) = Z.pos (Pos.of_uint_acc d p).
Proof.
  induction d as [|d IH|d IH|d IH|d IH|d IH|d IH|d IH|d IH|d IH|d IH];
    intros p; [reflexivity|..];
    cbn [NilEmpty.string_of_uint atoi_digits Pos.of_uint_acc];
    match goal with
    | |- context [digit_of ?c] =>
        let v := eval vm_compute in (digit_of c) in
        change (digit_of c) with v
    end; cbv iota; rewrite <- IH; f_equal; lia.
Qed.

Lemma atoi_digits_uint d :
  atoi_digits 0 (NilEmpty.string_of_uint d) = Z.of_N (Pos.of_uint d).
Proof.
  induction d as [|d IH|d IH|d IH|d IH|d IH|d IH|d IH|d IH|d IH|d IH];
    [reflexivity|..];
    cbn [NilEmpty.string_of_uint atoi_digits Pos.of_uint];
    match goal with
    | |- context [digit_of ?c] =>
        let v := eval vm_compute in (digit_of c) in
        change (digit_of c) with v
    end; cbv iota; [exact IH|..];
    cbn [Z.of_N]; rewrite <- atoi_digits_acc; reflexivity.
Qed.

Lemma atoi_uint d :
  d <> Decimal.Nil -> atoi (NilEmpty.string_of_uint d) = Z.of_N (Pos.of_uint d).
Proof.
  intros Hd. rewrite <- atoi_digits_uint.
  destruct d; [congruence|..]; reflexivity.
Qed.

Lemma atoi_fmt_i z : atoi (fmt_i z) = z.
Proof.
  unfold fmt_i. destruct z as [|p|p]; [reflexivity|..]; simpl Z.to_int;
    pose proof (Unsigned.to_uint_nonnil p) as Hnil;
    cbn [NilZero.string_of_int]; unfold NilZero.string_of_uint;
    destruct (Pos.to_uint p) eqn:E; try congruence; rewrite <- E in *.
  all: try (rewrite atoi_uint by exact Hnil;
            rewrite DecimalPos.Unsigned.of_to; reflexivity).
  all: change (atoi (String "-" ?s)) with (- atoi_digits 0 s);
       rewrite atoi_digits_uint, DecimalPos.Unsigned.of_to; reflexivity.
Qed.

(** *** The arrays of a well-formed list *)

Lemma keyword_array_used sz (ks : list string) (c : nat) (k : string) :
  ks !! c = Some k -> keyword_array sz ks !! c = Some (Some k).
Proof.
  intros H. unfold keyword_array.
  rewrite lookup_app_l by (rewrite length_fmap; eapply lookup_lt_Some, H).
  rewrite list_lookup_fmap, H. reflexivity.
Qed.

Lemma keyword_array_free sz (ks : list string) (c : nat) :
  (length ks <= c)%nat -> (c <= sz)%nat -> keyword_array sz ks !! c = Some None.
Proof.
  intros H1 H2. unfold keyword_array.
  rewrite lookup_app_r by (rewrite length_fmap; lia).
  rewrite length_fmap. apply lookup_replicate_2. lia.
Qed.

Lemma keyword_array_push sz (ks : list string) (k : string) :
  (length ks < sz)%nat ->
  <[length ks := Some k]> (keyword_array sz ks) = keyword_array sz (ks ++ [k]).
Proof.
  intros H. unfold keyword_array.
  rewrite insert_app_r_alt by (rewrite length_fmap; lia).
  rewrite length_fmap, Nat.sub_diag, fmap_app, length_app. simpl.
  replace (S sz - length ks)%nat with (S (S sz - (length ks + 1)))%nat by lia.
  simpl. rewrite <- app_assoc. reflexivity.
Qed.

Lemma keyword_array_take sz (ks : list string) :
  (length ks <= sz)%nat ->
  take sz (keyword_array sz ks) = (Some <$> ks) ++ replicate (sz - length ks) None.
Proof.
  intros H. unfold keyword_array.
  rewrite take_app_ge by (rewrite length_fmap; lia).
  rewrite length_fmap, take_replicate. f_equal. f_equal. lia.
Qed.

Lemma stored_array (ks : list string) n :
  stored ((Some <$> ks) ++ replicate n None) = ks.
Proof.
  induction ks as [|k ks IH]; simpl.
  - destruct n; reflexivity.
  - f_equal. exact IH.
Qed.

Lemma well_formed_used pl ks :
  keywords pl = keyword_array (size pl) ks -> (length ks <= size pl)%nat ->
  used pl = length ks.
Proof.
  intros Hk Hle. unfold used. rewrite Hk, keyword_array_take by exact Hle.
  rewrite stored_array. reflexivity.
Qed.

(** The scan of [param_set] stops at the slot of [param]. *)
Lemma param_set_loop_found pl ks param value i :
  keywords pl = keyword_array (size pl) ks ->
  NoDup ks -> ks !! i = Some param ->
  forall n c, (c <= i)%nat -> (i < c + n)%nat ->
  param_set_loop pl param value n c =
    Returned (mk_param_list (size pl) (keywords pl)
                (<[i := Some value]> (values pl))).
Proof.
  intros Hk Hnd Hi. induction n as [|n IH]; intros c Hc Hn; [lia|].
  simpl. destruct (decide (c = i)) as [->|Hne].
  - rewrite Hk, (keyword_array_used _ _ _ _ Hi), strcmp_eqb_true, <- Hk.
    reflexivity.
  - destruct (lookup_lt_is_Some_2 ks c) as [k' Hk'].
    { apply lookup_lt_Some in Hi. lia. }
    rewrite Hk, (keyword_array_used _ _ _ _ Hk'), <- Hk.
    rewrite strcmp_eqb_false.
    + apply IH; lia.
    + intros ->. apply Hne. eapply NoDup_lookup; eauto.
Qed.

(** Without a slot for [param] the scan falls out at the first free slot,
    or at [size]. *)
Lemma param_set_loop_absent pl ks param value :
  keywords pl = keyword_array (size pl) ks ->
  (length ks <= size pl)%nat -> param ∉ ks ->
  forall n c, (c + n = size pl)%nat -> (c <= length ks)%nat ->
  param_set_loop pl param value n c = Fell (length ks).
Proof.
  intros Hk Hle Hnotin. induction n as [|n IH]; intros c Hn Hc.
  - simpl. f_equal. lia.
  - simpl. destruct (decide (c = length ks)) as [->|Hne].
    + rewrite Hk, keyword_array_free by lia. reflexivity.
    + destruct (lookup_lt_is_Some_2 ks c) as [k' Hk']; [lia|].
      rewrite Hk, (keyword_array_used _ _ _ _ Hk'), <- Hk.
      rewrite strcmp_eqb_false.
      * apply IH; lia.
      * intros ->. apply Hnotin. eapply list_elem_of_lookup_2, Hk'.
Qed.

Lemma param_set_present pl ks param value i :
  keywords pl = keyword_array (size pl) ks ->
  (length ks <= size pl)%nat -> NoDup ks -> ks !! i = Some param ->
  param_set pl param value =
    mk_param_list (size pl) (keywords pl) (<[i := Some value]> (values pl)).
Proof.
  intros Hk Hle Hnd Hi. unfold param_set.
  rewrite (param_set_loop_found pl ks param value i Hk Hnd Hi); [reflexivity|lia|].
  apply lookup_lt_Some in Hi. lia.
Qed.

Lemma param_set_new pl ks param value :
  keywords pl = keyword_array (size pl) ks ->
  (length ks < size pl)%nat -> param ∉ ks ->
  param_set pl param value =
    mk_param_list (size pl) (keyword_array (size pl) (ks ++ [param]))
      (<[length ks := Some value]> (values pl)).
Proof.
  intros Hk Hlt Hnotin. unfold param_set.
  rewrite (param_set_loop_absent pl ks param value Hk) by (auto; lia).
  destruct (Nat.ltb_spec (length ks) (size pl)); [|lia].
  rewrite Hk, keyword_array_push by exact Hlt. reflexivity.
Qed.

Lemma param_set_full pl ks param value :
  keywords pl = keyword_array (size pl) ks ->
  length ks = size pl -> param ∉ ks ->
  param_set pl param value = pl.
Proof.
  intros Hk Hlt Hnotin. unfold param_set.
  rewrite (param_set_loop_absent pl ks param value Hk) by (auto; lia).
  destruct (Nat.ltb_spec (length ks) (size pl)); [lia|reflexivity].
Qed.


(** The scan of [param_get] returns what the slot of [param] holds. *)
Lemma param_get_loop_found pl ks param i :
  keywords pl = keyword_array (size pl) ks ->
  NoDup ks -> ks !! i = Some param ->
  forall n c, (c <= i)%nat -> (i < c + n)%nat ->
  param_get_loop pl param n c =
    Returned match values pl !! i with
             | Some (Some v) => if nonempty v then Some v else None
             | _ => None
             end.
Proof.
  intros Hk Hnd Hi. induction n as [|n IH]; intros c Hc Hn; [lia|].
  simpl. destruct (decide (c = i)) as [->|Hne].
  - rewrite Hk, (keyword_array_used _ _ _ _ Hi), strcmp_eqb_true.
    destruct (values pl !! i) as [[v|]|]; try reflexivity.
    destruct (nonempty v); reflexivity.
  - destruct (lookup_lt_is_Some_2 ks c) as [k' Hk'].
    { apply lookup_lt_Some in Hi. lia. }
    rewrite Hk, (keyword_array_used _ _ _ _ Hk').
    rewrite strcmp_eqb_false.
    + apply IH; lia.
    + intros ->. apply Hne. eapply NoDup_lookup; eauto.
Qed.

Lemma param_get_present pl ks param i :
  keywords pl = keyword_array (size pl) ks ->
  (length ks <= size pl)%nat -> NoDup ks -> ks !! i = Some param ->
  param_get pl param =
    match values pl !! i with
    | Some (Some v) => if nonempty v then Some v else None
    | _ => None
    end.
Proof.
  intros Hk Hle Hnd Hi. unfold param_get.
  rewrite (param_get_loop_found pl ks param i Hk Hnd Hi); [reflexivity|lia|].
  apply lookup_lt_Some in Hi. lia.
Qed.

(** Whatever the arrays hold: a keyword that is in no slot before the
    first [NULL] is reported absent. *)
Lemma param_get_loop_unset pl param :
  forall n c,
  param ∉ stored (drop c (take (c + n) (keywords pl))) ->
  param_get_loop pl param n c = Fell (c + length (stored (drop c (take (c + n) (keywords pl))))).
Proof.
  induction n as [|n IH]; intros c Hnotin.
  - simpl. rewrite Nat.add_0_r, drop_ge by (rewrite length_take; lia).
    simpl. f_equal. lia.
  - simpl. revert Hnotin.
    destruct (keywords pl !! c) as [o|] eqn:E.
    + rewrite (drop_S _ o c) by (rewrite lookup_take_lt by lia; exact E).
      replace (take (c + S n) (keywords pl)) with (take (S c + n) (keywords pl))
        by (f_equal; lia).
      destruct o as [kw|]; simpl; [|intros _; f_equal; lia].
      intros Hnotin. apply not_elem_of_cons in Hnotin as [Hne Hrest].
      rewrite strcmp_eqb_false by congruence.
      rewrite IH by exact Hrest. f_equal. simpl. lia.
    + apply lookup_ge_None in E.
      rewrite drop_ge by (rewrite length_take; lia). simpl.
      intros _. f_equal. lia.
Qed.

Lemma param_get_unset pl param :
  param ∉ stored (take (size pl) (keywords pl)) -> param_get pl param = None.
Proof.
  intros H. unfold param_get.
  rewrite (param_get_loop_unset pl param (size pl) 0); [reflexivity|].
  simpl. exact H.
Qed.

(** *** The invariant is established and kept *)

Lemma well_formed_param_set pl param value :
  well_formed pl -> well_formed (param_set pl param value).
Proof.
  intros (ks & Hk & Hle & Hnd & Hv).
  destruct (decide (param ∈ ks)) as [Hin|Hnotin].
  - apply list_elem_of_lookup in Hin as [i Hi].
    rewrite (param_set_present pl ks param value i Hk Hle Hnd Hi).
    exists ks. simpl. rewrite length_insert. auto.
  - destruct (decide (length ks = size pl)) as [Hfull|Hfree].
    + rewrite (param_set_full pl ks param value Hk Hfull Hnotin).
      exists ks. auto.
    + rewrite (param_set_new pl ks param value Hk) by (auto; lia).
      exists (ks ++ [param]). simpl. rewrite length_insert, length_app. simpl.
      split; [reflexivity|]. split; [lia|]. split; [|exact Hv].
      apply NoDup_app. repeat split; [exact Hnd| |apply NoDup_singleton].
      intros x Hx Hx'. apply list_elem_of_singleton in Hx'. subst. auto.
Qed.

Lemma well_formed_fold {A} (f : t_conninfo_param_list -> A -> t_conninfo_param_list) :
  (forall pl a, well_formed pl -> well_formed (f pl a)) ->
  forall l pl, well_formed pl -> well_formed (fold_left f l pl).
Proof.
  intros Hf. induction l as [|a l IH]; intros pl Hpl; simpl; auto.
Qed.

Lemma well_formed_initialize defs set_defaults :
  well_formed (initialize_conninfo_params defs set_defaults).
Proof.
  assert (H0 : well_formed
                 (mk_param_list (length defs) (replicate (S (length defs)) None)
                    (replicate (S (length defs)) None))).
  { exists []. simpl. rewrite length_replicate.
    split; [unfold keyword_array; simpl; do 2 f_equal; lia|].
    split; [lia|]. split; [apply NoDup_nil_2 | reflexivity]. }
  unfold initialize_conninfo_params. destruct set_defaults; [|exact H0].
  apply well_formed_fold; [|exact H0].
  intros pl def Hpl. destruct (val def) as [v|]; [|exact Hpl].
  destruct (nonempty v); [apply well_formed_param_set|]; exact Hpl.
Qed.

Lemma well_formed_copy_loop source n :
  forall c dest, well_formed dest ->
  well_formed (copy_conninfo_params_loop dest source n c).
Proof.
  induction n as [|n IH]; intros c dest Hd; simpl; [exact Hd|].
  destruct (keywords source !! c) as [[kw|]|]; try exact Hd.
  apply IH. destruct (values source !! c) as [[v|]|]; try exact Hd.
  destruct (nonempty v); [apply well_formed_param_set|]; exact Hd.
Qed.

Lemma well_formed_copy dest source :
  well_formed dest -> well_formed (copy_conninfo_params dest source).
Proof. apply well_formed_copy_loop. Qed.

Lemma well_formed_parse `{libpq} conninfo_str pl errmsg ignore_application_name :
  well_formed pl ->
  well_formed
    (snd (fst (parse_conninfo_string conninfo_str pl errmsg
                 ignore_application_name))).
Proof.
  intros Hpl. unfold parse_conninfo_string.
  destruct (conninfo_parse conninfo_str) as [diagnostic|connOptions];
    [exact Hpl|].
  cbn [fst snd]. apply well_formed_fold; [|exact Hpl].
  intros pl' option Hpl'. destruct (val option) as [v|]; [|exact Hpl'].
  destruct (negb (nonempty v)); [exact Hpl'|].
  destruct (_ && _)%bool; [exact Hpl'|].
  apply well_formed_param_set, Hpl'.
Qed.

(** *** Counting the entries of a keyword *)

Lemma entries_for_array sz (ks : list string) (vals : list (option string)) k :
  (length ks <= sz)%nat -> NoDup ks -> k ∈ ks ->
  entries_for (mk_param_list sz (keyword_array sz ks) vals) k = 1%nat.
Proof.
  intros Hle Hnd Hin. unfold entries_for. simpl.
  rewrite keyword_array_take by exact Hle.
  rewrite filter_app, length_app.
  replace (filter (fun o => o = Some k) (replicate (sz - length ks) None))
    with (@nil (option string)).
  2:{ induction (sz - length ks)%nat as [|m IH]; simpl; [reflexivity|].
      rewrite filter_cons_False by discriminate. exact IH. }
  simpl. rewrite Nat.add_0_r. clear Hle.
  induction ks as [|x ks IH]; [inversion Hin|].
  apply NoDup_cons in Hnd as [Hx Hnd]. rewrite fmap_cons.
  destruct (decide (x = k)) as [->|Hne].
  - rewrite filter_cons_True by reflexivity. simpl. f_equal.
    clear IH Hin. induction ks as [|y ks IH]; [reflexivity|].
    rewrite fmap_cons, filter_cons_False.
    + apply IH. { intros H. apply Hx. right. exact H. }
      apply NoDup_cons in Hnd. tauto.
    + intros [= ->]. apply Hx. left.
  - rewrite filter_cons_False by congruence.
    apply IH; [exact Hnd|]. apply elem_of_cons in Hin as [->|H]; [congruence|exact H].
Qed.

Lemma entries_for_absent pl k :
  (forall c, keywords pl !! c <> Some (Some k)) -> entries_for pl k = 0%nat.
Proof.
  intros H. unfold entries_for.
  destruct (filter (fun o => o = Some k) (take (size pl) (keywords pl)))
    as [|o l] eqn:E; [reflexivity|].
  assert (Hin : o ∈ filter (fun o => o = Some k) (take (size pl) (keywords pl)))
    by (rewrite E; left).
  apply list_elem_of_filter in Hin as [-> Hin].
  apply list_elem_of_lookup in Hin as [c Hc].
  apply lookup_take_Some in Hc as [Hc _]. destruct (H c Hc).
Qed.

Lemma well_formed_stored pl ks :
  keywords pl = keyword_array (size pl) ks -> (length ks <= size pl)%nat ->
  stored (take (size pl) (keywords pl)) = ks.
Proof.
  intros Hk Hle. rewrite Hk, keyword_array_take by exact Hle.
  apply stored_array.
Qed.

(** Setting a keyword leaves it in exactly one slot, and that slot holds
    the value. *)
Lemma param_set_slot pl k v :
  well_formed pl ->
  (used pl < size pl)%nat \/ k ∈ stored (take (size pl) (keywords pl)) ->
  exists ks i,
    keywords (param_set pl k v) = keyword_array (size pl) ks /\
    size (param_set pl k v) = size pl /\
    (length ks <= size pl)%nat /\ NoDup ks /\ ks !! i = Some k /\
    values (param_set pl k v) !! i = Some (Some v) /\
    length (values (param_set pl k v)) = S (size pl).
Proof.
  intros (ks & Hk & Hle & Hnd & Hv) Hroom.
  rewrite (well_formed_used pl ks Hk Hle) in Hroom.
  rewrite (well_formed_stored pl ks Hk Hle) in Hroom.
  destruct (decide (k ∈ ks)) as [Hin|Hnotin].
  - apply list_elem_of_lookup in Hin as [i Hi].
    rewrite (param_set_present pl ks k v i Hk Hle Hnd Hi). simpl.
    exists ks, i. rewrite length_insert.
    repeat (split; [solve [auto]|]). split; [|exact Hv].
    apply list_lookup_insert_eq. apply lookup_lt_Some in Hi. lia.
  - destruct Hroom as [Hlt|Hin]; [|contradiction].
    rewrite (param_set_new pl ks k v Hk Hlt Hnotin). simpl.
    exists (ks ++ [k]), (length ks). rewrite length_insert, length_app. simpl.
    split; [reflexivity|]. split; [reflexivity|]. split; [lia|].
    split.
    { apply NoDup_app. repeat split; [exact Hnd| |apply NoDup_singleton].
      intros x Hx Hx'. apply list_elem_of_singleton in Hx'. subst. auto. }
    split.
    { rewrite lookup_app_r by lia. rewrite Nat.sub_diag. reflexivity. }
    split; [|exact Hv]. apply list_lookup_insert_eq. lia.
Qed.

Lemma param_get_absent pl ks k :
  keywords pl = keyword_array (size pl) ks -> (length ks <= size pl)%nat ->
  k ∉ ks -> param_get pl k = None.
Proof.
  intros Hk Hle Hnotin. apply param_get_unset.
  rewrite (well_formed_stored pl ks Hk Hle). exact Hnotin.
Qed.

(** Setting one keyword does not change what is read for another. *)
Lemma param_get_param_set_other pl k k' v :
  well_formed pl -> k' <> k ->
  param_get (param_set pl k' v) k = param_get pl k.
Proof.
  intros (ks & Hk & Hle & Hnd & Hv) Hne.
  destruct (decide (k' ∈ ks)) as [Hin'|Hnotin'].
  - apply list_elem_of_lookup in Hin' as [i Hi].
    rewrite (param_set_present pl ks k' v i Hk Hle Hnd Hi).
    destruct (decide (k ∈ ks)) as [Hin|Hnotin].
    + apply list_elem_of_lookup in Hin as [j Hj].
      rewrite (param_get_present pl ks k j Hk Hle Hnd Hj).
      rewrite (param_get_present (mk_param_list _ _ _) ks k j Hk Hle Hnd Hj).
      simpl.
      rewrite list_lookup_insert_ne; [reflexivity|].
      intros ->. congruence.
    + rewrite (param_get_absent pl ks k Hk Hle Hnotin).
      apply (param_get_absent (mk_param_list _ _ _) ks k Hk Hle Hnotin).
  - destruct (decide (length ks = size pl)) as [Hfull|Hfree].
    + rewrite (param_set_full pl ks k' v Hk Hfull Hnotin'). reflexivity.
    + assert (Hlt : (length ks < size pl)%nat) by lia.
      rewrite (param_set_new pl ks k' v Hk Hlt Hnotin').
      assert (Hnd' : NoDup (ks ++ [k'])).
      { apply NoDup_app. repeat split; [exact Hnd| |apply NoDup_singleton].
        intros x Hx Hx'. apply list_elem_of_singleton in Hx'. subst. auto. }
      assert (Hle' : (length (ks ++ [k']) <= size pl)%nat)
        by (rewrite length_app; simpl; lia).
      destruct (decide (k ∈ ks)) as [Hin|Hnotin].
      * apply list_elem_of_lookup in Hin as [j Hj].
        assert (Hj' : (ks ++ [k']) !! j = Some k)
          by (rewrite lookup_app_l by (eapply lookup_lt_Some, Hj); exact Hj).
        rewrite (param_get_present pl ks k j Hk Hle Hnd Hj).
        rewrite (param_get_present
                   (mk_param_list (size pl) (keyword_array (size pl) (ks ++ [k'])) _)
                   (ks ++ [k']) k j eq_refl Hle' Hnd' Hj').
        simpl.
        rewrite list_lookup_insert_ne; [reflexivity|].
        apply lookup_lt_Some in Hj. lia.
      * rewrite (param_get_absent pl ks k Hk Hle Hnotin).
        apply (param_get_absent
                 (mk_param_list (size pl) (keyword_array (size pl) (ks ++ [k'])) _)
                 (ks ++ [k'])); [reflexivity|exact Hle'|].
        intros Hin. apply elem_of_app in Hin as [Hin|Hin]; [contradiction|].
        apply list_elem_of_singleton in Hin. congruence.
Qed.

(** C5 (as amended): on a list with spare capacity, after
    [param_set(list,k,v1)] and [param_set(list,k,v2)] the list holds exactly
    one entry for [k], and [param_get(list,k)] returns [v2] when [v2] is not
    the empty string and [NULL] when it is. *)
Theorem param_set_twice_then_get pl k v1 v2 :
  well_formed pl -> (used pl < size pl)%nat ->
  param_get (param_set (param_set pl k v1) k v2) k
    = (if nonempty v2 then Some v2 else None) /\
  entries_for (param_set (param_set pl k v1) k v2) k = 1%nat.
Proof.
  intros Hwf Hroom.
  destruct (param_set_slot pl k v1 Hwf (or_introl Hroom))
    as (ks & i & Hk1 & Hs1 & Hle & Hnd & Hi & _ & Hv1).
  set (pl1 := param_set pl k v1) in *.
  rewrite <- Hs1 in Hk1, Hle, Hv1.
  rewrite (param_set_present pl1 ks k v2 i Hk1 Hle Hnd Hi).
  split.
  - erewrite param_get_present; simpl; eauto.
    rewrite list_lookup_insert_eq; [reflexivity|].
    apply lookup_lt_Some in Hi. lia.
  - rewrite Hk1. apply entries_for_array; auto.
    eapply list_elem_of_lookup_2, Hi.
Qed.

Lemma param_set_twice_then_get_witness :
  param_get (param_set (param_set demo_list "host" "db1") "host" "db2") "host"
    = Some "db2" /\
  entries_for (param_set (param_set demo_list "host" "db1") "host" "db2") "host"
    = 1%nat.
Proof.
  apply (param_set_twice_then_get demo_list "host" "db1" "db2").
  - apply well_formed_initialize.
  - vm_compute. lia.
Defined.

(** C5 as stated fails when the second value is the empty string: the
    entry is overwritten, but [param_get] then answers [NULL], not the
    value. *)
Lemma param_set_twice_then_get_empty :
  well_formed demo_list /\ (used demo_list < size demo_list)%nat /\
  param_get
    (param_set (param_set demo_list "host" "db1") "host" EmptyString) "host"
    <> Some EmptyString.
Proof.
  split; [apply well_formed_initialize|].
  split; [vm_compute; lia|].
  vm_compute. discriminate.
Qed.

Lemma keyword_array_lookup sz (ks : list string) (c : nat) (k : string) :
  keyword_array sz ks !! c = Some (Some k) -> ks !! c = Some k.
Proof.
  unfold keyword_array. intros H.
  apply lookup_app_Some in H as [H|[_ H]].
  - rewrite list_lookup_fmap in H. destruct (ks !! c); simpl in H; congruence.
  - apply lookup_replicate in H as [H _]. discriminate.
Qed.

(** C6: [param_get] answers [NULL] for a keyword that is in no slot, and
    for a keyword that was set to the empty string; on a list with spare
    capacity a keyword that had no slot gets one by being set to the empty
    string, with the empty string stored as its value. *)
Theorem param_get_absent_and_empty pl k :
  (k ∉ stored (take (size pl) (keywords pl)) -> param_get pl k = None) /\
  (well_formed pl -> param_get (param_set pl k EmptyString) k = None) /\
  (well_formed pl -> (used pl < size pl)%nat ->
   k ∉ stored (take (size pl) (keywords pl)) ->
   entries_for pl k = 0%nat /\
   entries_for (param_set pl k EmptyString) k = 1%nat /\
   exists c, (c < size pl)%nat /\
     keywords (param_set pl k EmptyString) !! c = Some (Some k) /\
     values (param_set pl k EmptyString) !! c = Some (Some EmptyString)).
Proof.
  split; [|split].
  - apply param_get_unset.
  - intros Hwf.
    destruct (decide ((used pl < size pl)%nat \/
                      k ∈ stored (take (size pl) (keywords pl)))) as [Hroom|Hfull].
    + destruct (param_set_slot pl k EmptyString Hwf Hroom)
        as (ks & i & Hk1 & Hs1 & Hle & Hnd & Hi & Hvi & _).
      rewrite <- Hs1 in Hk1, Hle.
      rewrite (param_get_present _ ks k i Hk1 Hle Hnd Hi), Hvi. reflexivity.
    + destruct Hwf as (ks & Hk & Hle & Hnd & Hv).
      rewrite (well_formed_used pl ks Hk Hle) in Hfull.
      rewrite (well_formed_stored pl ks Hk Hle) in Hfull.
      rewrite (param_set_full pl ks k EmptyString Hk); [| lia | tauto].
      apply param_get_unset. rewrite (well_formed_stored pl ks Hk Hle). tauto.
  - intros Hwf Hroom Hunset. split.
    { destruct Hwf as (ks & Hk & Hle & _).
      rewrite (well_formed_stored pl ks Hk Hle) in Hunset.
      apply entries_for_absent. intros c Hc. rewrite Hk in Hc.
      apply keyword_array_lookup in Hc.
      apply Hunset. eapply list_elem_of_lookup_2, Hc. }
    destruct (param_set_slot pl k EmptyString Hwf (or_introl Hroom))
      as (ks & i & Hk1 & Hs1 & Hle & Hnd & Hi & Hvi & _).
    split.
    + destruct (param_set pl k EmptyString) as [sz kws vals] eqn:E. simpl in *. subst.
      apply entries_for_array; auto. eapply list_elem_of_lookup_2, Hi.
    + exists i. apply lookup_lt_Some in Hi as Hlt.
      split; [lia|]. split; [|exact Hvi].
      rewrite Hk1. apply keyword_array_used, Hi.
Qed.

Lemma param_get_absent_and_empty_witness :
  param_get demo_list "host" = None /\
  param_get (param_set demo_list "host" EmptyString) "host" = None /\
  (entries_for demo_list "host" = 0%nat /\
   entries_for (param_set demo_list "host" EmptyString) "host" = 1%nat /\
   exists c, (c < size demo_list)%nat /\
     keywords (param_set demo_list "host" EmptyString) !! c = Some (Some "host") /\
     values (param_set demo_list "host" EmptyString) !! c = Some (Some EmptyString)).
Proof.
  destruct (param_get_absent_and_empty demo_list "host") as (H1 & H2 & H3).
  assert (Hunset : "host" ∉ stored (take (size demo_list) (keywords demo_list))).
  { vm_compute. intros H. inversion H. }
  split; [apply H1, Hunset|].
  split; [apply H2, well_formed_initialize|].
  apply H3; [apply well_formed_initialize | vm_compute; lia | exact Hunset].
Defined.

(* ===================================================================== *)
(** ** Connections and the discovery loop *)
(* ===================================================================== *)

Section DriverFacts.
Context {hdr : repmgr_h} {drv : libpq}.

(** With [exit_on_error] off, [establish_db_connection] always returns. *)
Lemma establish_db_connection_returns conninfo w :
  establish_db_connection conninfo false w
    = (Ret (fresh w), connect_events conninfo w ++ w).
Proof.
  unfold establish_db_connection, _establish_db_connection, set_config,
    _set_config, connect_events, connection_string_of.
  run_driver. repeat case_if; simpl in *; try reflexivity; try discriminate.
Qed.


Lemma opened_app evs w : opened (evs ++ w) = opened w ++ opened evs.
Proof. unfold opened. rewrite rev_app_distr, omap_app. reflexivity. Qed.

Lemma finished_app evs w c :
  finished (evs ++ w) c = (finished evs c || finished w c)%bool.
Proof. unfold finished. apply existsb_app. Qed.

Lemma connect_strings_exec c q evs :
  connect_strings (EvExec c q :: evs) = connect_strings evs.
Proof.
  unfold connect_strings. simpl. rewrite omap_app. simpl. apply app_nil_r.
Qed.

Lemma connect_strings_finish c evs :
  connect_strings (EvFinish c :: evs) = connect_strings evs.
Proof.
  unfold connect_strings. simpl. rewrite omap_app. simpl. apply app_nil_r.
Qed.

Lemma connect_events_strings conninfo w :
  connect_strings (connect_events conninfo w) = [connection_string_of conninfo].
Proof.
  unfold connect_events. destruct (ConnStatusType_eqb _ _); reflexivity.
Qed.

Lemma connect_events_opened conninfo w :
  opened (connect_events conninfo w) = [fresh w].
Proof.
  unfold connect_events. destruct (ConnStatusType_eqb _ _); reflexivity.
Qed.

Lemma connect_events_finished conninfo w c :
  finished (connect_events conninfo w) c = false.
Proof.
  unfold connect_events. destruct (ConnStatusType_eqb _ _); reflexivity.
Qed.

(** [is_standby] always returns, one of -1, 0 and 1, and adds its one
    statement to the world. *)
Lemma is_standby_returns c w :
  exists s, is_standby c w
              = (Ret s, EvExec c "SELECT pg_catalog.pg_is_in_recovery()" :: w) /\
            (s = -1 \/ s = 0 \/ s = 1).
Proof.
  unfold is_standby. run_driver. repeat case_if; eauto.
Qed.


(** *** One round of the loop *)

Lemma get_master_connection_body_rejected res i l w c w1 w2 :
  establish_db_connection (candidate_conninfo res i) false w = (Ret c, w1) ->
  candidate_rejected c w1 w2 ->
  get_master_connection_body res i l w
    = (Ret (Continue, mk_locals (candidate_conninfo res i) (master_id l)), w2).
Proof.
  intros Hconn Hrej. unfold get_master_connection_body.
  cbn [remote_conninfo master_id]. fold (candidate_conninfo res i).
  unfold bind at 1. rewrite Hconn. run_driver.
  destruct Hrej as [Hbad|w' Hok Hprobe|w' Hok Hprobe].
  - destruct (conn_status w1 c); [congruence|reflexivity].
  - rewrite Hok. cbn [negb ConnStatusType_eqb]. rewrite Hprobe. reflexivity.
  - rewrite Hok. cbn [negb ConnStatusType_eqb]. rewrite Hprobe. reflexivity.
Qed.

Lemma get_master_connection_body_accepted res i l w c w1 w2 :
  establish_db_connection (candidate_conninfo res i) false w = (Ret c, w1) ->
  conn_status w1 c = CONNECTION_OK ->
  is_standby c w1 = (Ret 0, w2) ->
  get_master_connection_body res i l w
    = (Ret (Return c,
            mk_locals (candidate_conninfo res i)
              match master_id l with
              | Some _ => Some (atoi (PQgetvalue res i 0))
              | None => None
              end), w2).
Proof.
  intros Hconn Hok Hprobe. unfold get_master_connection_body.
  cbn [remote_conninfo master_id]. fold (candidate_conninfo res i).
  unfold bind at 1. rewrite Hconn. run_driver.
  rewrite Hok. cbn [negb ConnStatusType_eqb]. rewrite Hprobe. simpl.
  destruct (master_id l); reflexivity.
Qed.

(** Whatever the driver answers, a round returns, it leaves the conninfo
    of its row in the buffer, and it asks for exactly one connection. *)
Lemma get_master_connection_body_returns res i l w :
  exists f l' evs,
    get_master_connection_body res i l w = (Ret (f, l'), evs ++ w) /\
    remote_conninfo l' = candidate_conninfo res i /\
    connect_strings evs = [connection_string_of (candidate_conninfo res i)].
Proof.
  unfold get_master_connection_body.
  cbn [remote_conninfo master_id]. fold (candidate_conninfo res i).
  unfold bind at 1. rewrite establish_db_connection_returns.
  set (evs := connect_events (candidate_conninfo res i) w).
  assert (Hevs : connect_strings evs
                 = [connection_string_of (candidate_conninfo res i)])
    by apply connect_events_strings.
  run_driver. case_if.
  - exists Continue, (mk_locals (candidate_conninfo res i) (master_id l)), evs.
    auto.
  - destruct (is_standby_returns (fresh w) (evs ++ w)) as (s & Hs & Hcases).
    rewrite Hs.
    destruct Hcases as [->|[->| ->]]; simpl.
    + exists Continue, (mk_locals (candidate_conninfo res i) (master_id l)),
        (EvFinish (fresh w) :: EvExec (fresh w) "SELECT pg_catalog.pg_is_in_recovery()" :: evs).
      split; [reflexivity|]. split; [reflexivity|].
      rewrite connect_strings_finish, connect_strings_exec. exact Hevs.
    + eexists (Return (fresh w)), _,
        (EvExec (fresh w) "SELECT pg_catalog.pg_is_in_recovery()" :: evs).
      split; [reflexivity|]. split; [destruct (master_id l); reflexivity|].
      rewrite connect_strings_exec. exact Hevs.
    + exists Continue, (mk_locals (candidate_conninfo res i) (master_id l)),
        (EvFinish (fresh w) :: EvExec (fresh w) "SELECT pg_catalog.pg_is_in_recovery()" :: evs).
      split; [reflexivity|]. split; [reflexivity|].
      rewrite connect_strings_finish, connect_strings_exec. exact Hevs.
Qed.

(** A connection that is rejected after its probe has been closed; one
    whose status is not [CONNECTION_OK] is left as it was opened. *)
Lemma candidate_rejected_finished c w w' :
  candidate_rejected c w w' ->
  conn_status w c = CONNECTION_OK -> finished w' c = true.
Proof.
  intros [Hbad|w1 _ _|w1 _ _] Hok; [congruence| |];
    cbn [finished existsb]; rewrite Nat.eqb_refl; reflexivity.
Qed.

Lemma get_master_connection_body_failed_connection res i l w :
  let c := fresh w in
  let w1 := connect_events (candidate_conninfo res i) w ++ w in
  conn_status w1 c <> CONNECTION_OK ->
  get_master_connection_body res i l w
    = (Ret (Continue, mk_locals (candidate_conninfo res i) (master_id l)), w1) /\
  In c (opened w1) /\
  finished w1 c = finished w c.
Proof.
  intros c w1 Hbad. split; [|split].
  - apply (get_master_connection_body_rejected res i l w c w1 w1).
    + apply establish_db_connection_returns.
    + apply connection_failed, Hbad.
  - unfold w1. rewrite opened_app, connect_events_opened.
    apply in_or_app. right. left. reflexivity.
  - unfold w1. rewrite finished_app, connect_events_finished. reflexivity.
Qed.

(** *** The loop *)

Lemma buffer_after_cons res i rounds buf :
  buffer_after res rounds (candidate_conninfo res i)
    = buffer_after res (i :: rounds) buf.
Proof.
  unfold buffer_after. destruct rounds as [|j rounds]; [reflexivity|].
  rewrite last_cons_cons.
  destruct (last (j :: rounds)) eqn:E; [reflexivity|].
  apply last_None in E. discriminate.
Qed.

(** Rejected candidates do not end the loop: it goes on with the rows
    that follow, in the world the rejections left. *)
Lemma get_master_connection_loop_rejected res rounds w w' :
  all_rejected res rounds w w' ->
  forall l rest,
  get_master_connection_loop res (rounds ++ rest) l w
    = get_master_connection_loop res rest
        (mk_locals (buffer_after res rounds (remote_conninfo l)) (master_id l))
        w'.
Proof.
  induction 1 as [w|i rounds w c w1 w2 w' Hconn Hrej _ IH]; intros l rest.
  - destruct l. reflexivity.
  - simpl. unfold bind at 1.
    rewrite (get_master_connection_body_rejected res i l w c w1 w2 Hconn Hrej).
    rewrite IH. cbn [remote_conninfo master_id].
    rewrite (buffer_after_cons res i rounds (remote_conninfo l)). reflexivity.
Qed.

Lemma get_master_connection_loop_accepted res i rest l w c w1 w2 :
  establish_db_connection (candidate_conninfo res i) false w = (Ret c, w1) ->
  conn_status w1 c = CONNECTION_OK ->
  is_standby c w1 = (Ret 0, w2) ->
  get_master_connection_loop res (i :: rest) l w
    = (Ret (Some c,
            mk_locals (candidate_conninfo res i)
              match master_id l with
              | Some _ => Some (atoi (PQgetvalue res i 0))
              | None => None
              end), w2).
Proof.
  intros Hconn Hok Hprobe. simpl. unfold bind at 1.
  rewrite (get_master_connection_body_accepted res i l w c w1 w2 Hconn Hok Hprobe).
  reflexivity.
Qed.



(** *** The function *)

Lemma get_master_connection_unfold conn mid out w :
  PQresultStatus (exec_result w conn get_master_connection_query) = PGRES_TUPLES_OK ->
  get_master_connection conn mid out w =
    let res := exec_result w conn get_master_connection_query in
    match get_master_connection_loop res (seq 0 (PQntuples res))
            (mk_locals (default EmptyString out) (written mid NODE_NOT_FOUND))
            (EvExec conn get_master_connection_query :: w) with
    | (Ret r, w') =>
        (Ret (fst r, master_id (snd r), written out (remote_conninfo (snd r))), w')
    | (Exit code, w') => (Exit code, w')
    end.
Proof.
  intros Hok. unfold get_master_connection. run_driver. rewrite Hok.
  cbn [negb ExecStatusType_eqb]. destruct out, mid; reflexivity.
Qed.

Lemma seq_split_at n i :
  (i < n)%nat -> seq 0 n = seq 0 i ++ i :: seq (S i) (n - S i).
Proof.
  intros H. replace n with (i + S (n - S i))%nat at 1 by lia.
  rewrite seq_app. reflexivity.
Qed.

Lemma get_master_connection_accepts conn mid out w i c w1 w2 w3 :
  let res := exec_result w conn get_master_connection_query in
  PQresultStatus res = PGRES_TUPLES_OK ->
  (i < PQntuples res)%nat ->
  all_rejected res (seq 0 i) (EvExec conn get_master_connection_query :: w) w1 ->
  establish_db_connection (candidate_conninfo res i) false w1 = (Ret c, w2) ->
  conn_status w2 c = CONNECTION_OK ->
  is_standby c w2 = (Ret 0, w3) ->
  get_master_connection conn mid out w
    = (Ret (Some c,
            written mid (atoi (PQgetvalue res i 0)),
            written out (candidate_conninfo res i)), w3).
Proof.
  intros res Hok Hi Hrej Hconn Hst Hprobe.
  rewrite (get_master_connection_unfold conn mid out w Hok). fold res. cbv zeta.
  rewrite (seq_split_at _ i Hi).
  rewrite (get_master_connection_loop_rejected res _ _ _ Hrej).
  rewrite (get_master_connection_loop_accepted res i _ _ w1 c w2 w3 Hconn Hst Hprobe).
  cbn [fst snd master_id remote_conninfo]. destruct mid, out; reflexivity.
Qed.

Lemma get_master_connection_none conn mid out w w' :
  let res := exec_result w conn get_master_connection_query in
  PQresultStatus res = PGRES_TUPLES_OK ->
  all_rejected res (seq 0 (PQntuples res))
    (EvExec conn get_master_connection_query :: w) w' ->
  get_master_connection conn mid out w
    = (Ret (None,
            written mid NODE_NOT_FOUND,
            match out with
            | Some buf => Some (buffer_after res (seq 0 (PQntuples res)) buf)
            | None => None
            end), w').
Proof.
  intros res Hok Hrej.
  rewrite (get_master_connection_unfold conn mid out w Hok). fold res. cbv zeta.
  pose proof (get_master_connection_loop_rejected res _ _ _ Hrej
                (mk_locals (default EmptyString out) (written mid NODE_NOT_FOUND))
                []) as Hloop.
  rewrite app_nil_r in Hloop. rewrite Hloop.
  cbn [get_master_connection_loop ret fst snd master_id remote_conninfo].
  destruct mid, out; reflexivity.
Qed.

(** [is_standby] on an answer that is no error and not the single row
    [t]. *)
Lemma is_standby_ambiguous c w r :
  exec_result w c "SELECT pg_catalog.pg_is_in_recovery()" = Some r ->
  resultStatus r = PGRES_TUPLES_OK ->
  length (tuples r) <> 1%nat \/ PQgetvalue (Some r) 0 0 <> "t" ->
  is_standby c w = (Ret 0, EvExec c "SELECT pg_catalog.pg_is_in_recovery()" :: w).
Proof.
  intros Hr Hst Hamb. unfold is_standby. run_driver. rewrite Hr.
  cbn [PQresultStatus PQntuples]. rewrite Hst. cbn [ExecStatusType_eqb negb orb].
  destruct (Nat.eqb_spec (length (tuples r)) 1) as [Hlen|Hlen]; [|reflexivity].
  destruct Hamb as [Hamb|Hamb]; [contradiction|].
  rewrite strcmp_eqb_false by exact Hamb. reflexivity.
Qed.

(** C2: once the candidates before row [i] are rejected and the
    connection to row [i] reports that it is not in recovery,
    [get_master_connection] returns that connection, which it has not
    closed, with the node id of the row behind [master_id] and its conninfo
    (as [strncpy] copied it, which is all of it when it is shorter than
    [MAXCONNINFO]) in [master_conninfo_out], whenever these are supplied;
    the call ends in the world the probe of row [i] left, so the only
    connection asked for after those of the rejected rows is this one. *)
Theorem get_master_connection_first_primary conn mid out w i c w1 w2 w3 :
  let res := exec_result w conn get_master_connection_query in
  PQresultStatus res = PGRES_TUPLES_OK ->
  (i < PQntuples res)%nat ->
  all_rejected res (seq 0 i) (EvExec conn get_master_connection_query :: w) w1 ->
  establish_db_connection (candidate_conninfo res i) false w1 = (Ret c, w2) ->
  conn_status w2 c = CONNECTION_OK ->
  is_standby c w2 = (Ret 0, w3) ->
  get_master_connection conn mid out w
    = (Ret (Some c,
            written mid (atoi (PQgetvalue res i 0)),
            written out (candidate_conninfo res i)), w3) /\
  (exists evs, w3 = evs ++ w1 /\ finished evs c = false /\
     connect_strings evs = [connection_string_of (candidate_conninfo res i)]) /\
  ((String.length (PQgetvalue res i 1) < MAXCONNINFO)%nat ->
   candidate_conninfo res i = PQgetvalue res i 1).
Proof.
  intros res Hok Hi Hrej Hconn Hst Hprobe. split; [|split].
  - exact (get_master_connection_accepts conn mid out w i c w1 w2 w3
             Hok Hi Hrej Hconn Hst Hprobe).
  - rewrite establish_db_connection_returns in Hconn.
    injection Hconn as <- <-.
    destruct (is_standby_returns (fresh w1)
                (connect_events (candidate_conninfo res i) w1 ++ w1))
      as (s & Hs & _).
    rewrite Hs in Hprobe. injection Hprobe as -> <-.
    exists (EvExec (fresh w1) "SELECT pg_catalog.pg_is_in_recovery()"
              :: connect_events (candidate_conninfo res i) w1).
    split; [reflexivity|]. split.
    + cbn [finished existsb orb]. apply connect_events_finished.
    + rewrite connect_strings_exec. apply connect_events_strings.
  - intros Hfit. apply strncpy_fits. lia.
Qed.


End DriverFacts.

(** *** The order of the node-list query *)

Lemma order_by_leb_key a b : order_by_leb a b = true <-> key_le a b.
Proof.
  unfold order_by_leb, key_le, active_rank.
  destruct (r_active a), (r_active b); simpl;
    try (split; [intros _; lia | reflexivity]);
    try (split; [discriminate | lia]);
    destruct (Z.compare_spec (type_priority a) (type_priority b));
    try (split; [intros _; lia | reflexivity]);
    try (split; [discriminate | lia]);
    destruct (Z.compare_spec (r_priority a) (r_priority b));
    try (split; [intros _; lia | reflexivity]);
    try (split; [discriminate | lia]);
    rewrite Z.leb_le; lia.
Qed.

Lemma type_priority_master r :
  (type_priority r = 1 /\ r_type r = "master") \/
  (type_priority r = 2 /\ r_type r <> "master").
Proof.
  unfold type_priority. destruct (String.eqb_spec (r_type r) "master"); auto.
Qed.

Lemma key_le_probed_no_later a b : key_le a b <-> probed_no_later a b.
Proof.
  unfold key_le, probed_no_later, active_rank.
  destruct (type_priority_master a) as [[Ha Ha']|[Ha Ha']],
           (type_priority_master b) as [[Hb Hb']|[Hb Hb']];
    rewrite Ha, Hb; destruct (r_active a), (r_active b);
    split; intros H;
    repeat match goal with
           | H : _ \/ _ |- _ => destruct H
           | H : _ /\ _ |- _ => destruct H
           end;
    try lia; try congruence; try tauto;
    try (right; split; [reflexivity|]; right; split; [tauto|]; lia);
    try (right; split; [reflexivity|]; left; tauto).
Qed.

Lemma order_by_leb_total a b : order_by_leb a b = false -> order_by_leb b a = true.
Proof.
  intros H. apply order_by_leb_key.
  assert (Hn : ~ key_le a b) by (rewrite <- order_by_leb_key, H; discriminate).
  unfold key_le in *. lia.
Qed.

Lemma key_le_trans a b c : key_le a b -> key_le b c -> key_le a c.
Proof. unfold key_le. lia. Qed.

Lemma order_by_insert_perm r l : Permutation (order_by_insert r l) (r :: l).
Proof.
  induction l as [|x l IH]; simpl; [reflexivity|].
  destruct (order_by_leb r x); [reflexivity|].
  rewrite IH. apply perm_swap.
Qed.

Lemma order_by_perm l : Permutation (order_by l) l.
Proof.
  induction l as [|r l IH]; simpl; [reflexivity|].
  rewrite order_by_insert_perm, IH. reflexivity.
Qed.

Lemma order_by_insert_sorted r l :
  StronglySorted key_le l -> StronglySorted key_le (order_by_insert r l).
Proof.
  induction 1 as [|x l Hl IH Hx]; simpl.
  - repeat constructor.
  - destruct (order_by_leb r x) eqn:E.
    + apply order_by_leb_key in E. constructor; [constructor; assumption|].
      constructor; [exact E|].
      eapply Forall_impl; [exact Hx|]. intros y Hy.
      eapply key_le_trans; eauto.
    + apply order_by_leb_total, order_by_leb_key in E.
      constructor; [exact IH|].
      rewrite (order_by_insert_perm r l). constructor; assumption.
Qed.

Lemma order_by_sorted l : StronglySorted key_le (order_by l).
Proof.
  induction l as [|r l IH]; simpl; [constructor|].
  apply order_by_insert_sorted, IH.
Qed.

Lemma StronglySorted_impl {A} (R S : A -> A -> Prop) l :
  (forall x y, R x y -> S x y) -> StronglySorted R l -> StronglySorted S l.
Proof.
  intros HRS. induction 1 as [|x l Hl IH Hx]; constructor; auto.
  eapply Forall_impl; eauto.
Qed.

Lemma master_candidates_sorted nodes :
  StronglySorted probed_no_later (master_candidates nodes).
Proof.
  eapply StronglySorted_impl; [|apply order_by_sorted].
  intros x y. apply key_le_probed_no_later.
Qed.

Lemma key_le_same_id a b : key_le a b -> key_le b a -> r_node_id a = r_node_id b.
Proof. unfold key_le. lia. Qed.

(** Two lists in the same strict order with the same elements are the
    same list. *)
Lemma sorted_permutation_unique {A} (R : A -> A -> Prop) (l1 : list A) :
  forall l2,
  (forall x y, In x l1 -> In y l1 -> R x y -> R y x -> x = y) ->
  StronglySorted R l1 -> StronglySorted R l2 -> Permutation l1 l2 ->
  l1 = l2.
Proof.
  induction l1 as [|a l1 IH]; intros l2 Hanti Hs1 Hs2 Hperm.
  - apply Permutation_nil in Hperm. congruence.
  - destruct l2 as [|b l2];
      [apply Permutation_sym, Permutation_nil in Hperm; discriminate|].
    apply StronglySorted_inv in Hs1 as [Hs1 Ha].
    apply StronglySorted_inv in Hs2 as [Hs2 Hb].
    assert (Hab : a = b).
    { assert (Hin_a : In a (b :: l2))
        by (eapply Permutation_in; [exact Hperm | left; reflexivity]).
      assert (Hin_b : In b (a :: l1))
        by (eapply Permutation_in;
            [apply Permutation_sym; exact Hperm | left; reflexivity]).
      destruct Hin_a as [->|Hin_a]; [reflexivity|].
      destruct Hin_b as [->|Hin_b]; [reflexivity|].
      apply Hanti; [left; reflexivity | right; exact Hin_b | |].
      - rewrite List.Forall_forall in Ha. apply Ha, Hin_b.
      - rewrite List.Forall_forall in Hb. apply Hb, Hin_a. }
    subst b. f_equal. apply IH; auto.
    + intros x y Hx Hy. apply Hanti; right; assumption.
    + eapply Permutation_cons_inv, Hperm.
Qed.

(** With [node_id] a key of the relation, the order the query asks for
    leaves no choice: any list of the selected rows in that order is the
    list of candidates. *)
Lemma master_candidates_unique nodes l :
  NoDup (map r_node_id nodes) ->
  Permutation l (List.filter where_clause nodes) ->
  StronglySorted probed_no_later l ->
  l = master_candidates nodes.
Proof.
  intros Hkey Hperm Hsorted.
  apply (sorted_permutation_unique probed_no_later); auto.
  - intros x y Hx Hy Hxy Hyx.
    assert (Hid : r_node_id x = r_node_id y)
      by (apply key_le_same_id; apply key_le_probed_no_later; assumption).
    assert (Hin : forall z, In z l -> In z nodes).
    { intros z Hz. eapply Permutation_in in Hz; [|exact Hperm].
      apply filter_In in Hz. tauto. }
    apply Hin in Hx, Hy. clear - Hkey Hid Hx Hy.
    induction nodes as [|n nodes IH]; [contradiction|].
    simpl in Hkey. apply NoDup_cons in Hkey as [Hn Hkey].
    destruct Hx as [->|Hx], Hy as [->|Hy]; auto.
    + exfalso. apply Hn. rewrite Hid. apply list_elem_of_In, in_map, Hy.
    + exfalso. apply Hn. rewrite <- Hid. apply list_elem_of_In, in_map, Hx.
  - apply master_candidates_sorted.
  - rewrite Hperm. symmetry. apply order_by_perm.
Qed.

(* ===================================================================== *)
(** ** Primary discovery *)
(* ===================================================================== *)

Section DiscoveryFacts.
Context {hdr : repmgr_h} {drv : libpq}.

Lemma last_seq n : last (seq 0 (S n)) = Some n.
Proof.
  rewrite seq_S, last_snoc. reflexivity.
Qed.


(** What the loop reads from row [i] of the node-list result: the id and
    the conninfo of the [i]-th candidate. *)
Lemma candidate_fields nodes i n :
  master_candidates nodes !! i = Some n ->
  atoi (PQgetvalue (Some (get_master_connection_result nodes)) i 0)
    = r_node_id n /\
  PQgetvalue (Some (get_master_connection_result nodes)) i 1 = r_conninfo n.
Proof.
  intros Hn. unfold PQgetvalue, get_master_connection_result. cbn [tuples].
  rewrite list_lookup_fmap, Hn. cbn. split; [apply atoi_fmt_i | reflexivity].
Qed.

(** C9: when the probe statement succeeds without telling that the node
    is in recovery, because it has not exactly one row or its first value
    is not [t], [is_standby] returns 0, and [get_master_connection] returns
    the connection of that candidate as the one of the primary. *)
Theorem get_master_connection_ambiguous_probe conn mid out w i c w1 w2 r :
  let res := exec_result w conn get_master_connection_query in
  let probe := "SELECT pg_catalog.pg_is_in_recovery()" in
  PQresultStatus res = PGRES_TUPLES_OK ->
  (i < PQntuples res)%nat ->
  all_rejected res (seq 0 i) (EvExec conn get_master_connection_query :: w) w1 ->
  establish_db_connection (candidate_conninfo res i) false w1 = (Ret c, w2) ->
  conn_status w2 c = CONNECTION_OK ->
  exec_result w2 c probe = Some r ->
  resultStatus r = PGRES_TUPLES_OK ->
  length (tuples r) <> 1%nat \/ PQgetvalue (Some r) 0 0 <> "t" ->
  is_standby c w2 = (Ret 0, EvExec c probe :: w2) /\
  get_master_connection conn mid out w
    = (Ret (Some c,
            written mid (atoi (PQgetvalue res i 0)),
            written out (candidate_conninfo res i)), EvExec c probe :: w2).
Proof.
  intros res probe Hok Hi Hrej Hconn Hst Hr Hrst Hamb.
  pose proof (is_standby_ambiguous c w2 r Hr Hrst Hamb) as Hprobe.
  split; [exact Hprobe|].
  exact (get_master_connection_accepts conn mid out w i c w1 w2 _
           Hok Hi Hrej Hconn Hst Hprobe).
Qed.

(** C10: every round of the loop leaves the conninfo of its row, cut to
    [MAXCONNINFO] bytes, in the buffer; so when the caller supplies
    [master_conninfo_out] and the call returns [NULL] after looking at one
    candidate or more, the buffer holds the conninfo of the last row. *)
Theorem get_master_connection_buffer_clobbered conn mid buf w :
  let res := exec_result w conn get_master_connection_query in
  (forall i l w1 f l' w2,
     get_master_connection_body res i l w1 = (Ret (f, l'), w2) ->
     remote_conninfo l' = strncpy MAXCONNINFO (PQgetvalue res i 1)) /\
  (forall w',
     PQresultStatus res = PGRES_TUPLES_OK ->
     (0 < PQntuples res)%nat ->
     all_rejected res (seq 0 (PQntuples res))
       (EvExec conn get_master_connection_query :: w) w' ->
     get_master_connection conn mid (Some buf) w
       = (Ret (None, written mid NODE_NOT_FOUND,
               Some (strncpy MAXCONNINFO
                       (PQgetvalue res (PQntuples res - 1) 1))), w')).
Proof.
  intros res. split.
  - intros i l w1 f l' w2 Hbody.
    destruct (get_master_connection_body_returns res i l w1)
      as (f0 & l0 & evs & Hbody0 & Hbuf & _).
    rewrite Hbody0 in Hbody. injection Hbody as <- <- <-. exact Hbuf.
  - intros w' Hok Hpos Hrej.
    rewrite (get_master_connection_none conn mid (Some buf) w w' Hok Hrej).
    fold res. unfold buffer_after.
    destruct (PQntuples res) as [|n]; [lia|].
    rewrite last_seq. unfold candidate_conninfo.
    replace (S n - 1)%nat with n by lia. reflexivity.
Qed.


End DiscoveryFacts.

(* ===================================================================== *)
(** ** Node records and conninfo parsing *)
(* ===================================================================== *)

Section NodeRecordFacts.
Context {hdr : repmgr_h} {drv : libpq}.



(** C7, as the code has it: when the driver's parser refuses the string,
    [parse_conninfo_string] returns false, and the diagnostic reaches only
    its own copy of [errmsg]; the caller's [errmsg] still is [NULL] when
    [establish_db_connection_as_user] logs it. *)
Theorem parse_conninfo_string_loses_diagnostic defs conninfo user exit_on_error
    param_list errmsg ignore_application_name diagnostic w :
  conninfo_parse conninfo = inl diagnostic ->
  parse_conninfo_string conninfo param_list errmsg ignore_application_name
    = (false, param_list, Some diagnostic) /\
  establish_db_connection_as_user defs conninfo user exit_on_error w
    = (Ret None,
       EvLogError "unable to pass provided conninfo string:\n	 %s" None :: w).
Proof.
  intros Hparse.
  unfold establish_db_connection_as_user, parse_conninfo_string.
  rewrite Hparse. split; reflexivity.
Qed.

End NodeRecordFacts.

(* ===================================================================== *)
(** ** Runs on the demo cluster *)
(* ===================================================================== *)

Lemma get_master_connection_first_primary_witness :
  exists w',
    get_master_connection (hdr := demo_h) (drv := demo_driver cluster)
      0%nat (Some 0) (Some EmptyString) w0
    = (Ret (Some 3%nat, Some 2, Some "host=node2"), w').
Proof.
  eexists.
  refine (proj1 (get_master_connection_first_primary
                   (hdr := demo_h) (drv := demo_driver cluster)
                   0%nat (Some 0) (Some EmptyString) w0 2%nat 3%nat _ _ _
                   _ _ _ _ _ _)).
  - by_running.
  - by_running.
  - change (seq 0 2) with [0%nat; 1%nat]. reject_down. reject_recovering.
    apply all_rejected_nil.
  - vm_compute. reflexivity.
  - by_running.
  - vm_compute. reflexivity.
Defined.


Lemma get_master_connection_ambiguous_probe_witness :
  exists w',
    get_master_connection (hdr := demo_h)
      (drv := demo_driver cluster_with_silent_node)
      0%nat (Some 0) None w0
    = (Ret (Some 3%nat, Some 6, None), w').
Proof.
  eexists.
  refine (proj2 (get_master_connection_ambiguous_probe
                   (hdr := demo_h) (drv := demo_driver cluster_with_silent_node)
                   0%nat (Some 0) None w0 2%nat 3%nat _ _
                   (mk_result PGRES_TUPLES_OK [])
                   _ _ _ _ _ _ _ _)).
  - by_running.
  - by_running.
  - change (seq 0 2) with [0%nat; 1%nat]. reject_down. reject_recovering.
    apply all_rejected_nil.
  - vm_compute. reflexivity.
  - by_running.
  - vm_compute. reflexivity.
  - reflexivity.
  - left. by_running.
Defined.

Lemma get_master_connection_buffer_clobbered_witness :
  exists w',
    get_master_connection (hdr := demo_h)
      (drv := demo_driver cluster_without_primary)
      0%nat (Some 0) (Some "host=node3") w0
    = (Ret (None, Some (-1), Some "host=node5"), w').
Proof.
  eexists.
  refine (proj2 (get_master_connection_buffer_clobbered
                   (hdr := demo_h) (drv := demo_driver cluster_without_primary)
                   0%nat (Some 0) "host=node3" w0) _ _ _ _).
  - by_running.
  - by_running.
  - change (seq 0 _) with [0%nat; 1%nat; 2%nat].
    reject_down. reject_recovering. reject_failed. apply all_rejected_nil.
Defined.


Lemma parse_conninfo_string_loses_diagnostic_witness :
  establish_db_connection_as_user (hdr := demo_h) (drv := demo_driver cluster)
    demo_defs "host" "repmgr" false w0
  = (Ret None,
     EvLogError "unable to pass provided conninfo string:\n	 %s" None :: w0).
Proof.
  refine (proj2 (parse_conninfo_string_loses_diagnostic
                   (hdr := demo_h) (drv := demo_driver cluster)
                   demo_defs "host" "repmgr" false
                   (initialize_conninfo_params demo_defs false) None true
                   "missing = after host in connection info string" w0 _)).
  reflexivity.
Defined.

(** C4, at a candidate whose server is down: the call returns the
    connection to node 2, and the connection object of the failed attempt
    on node 1 is never handed to [PQfinish]. *)
Theorem get_master_connection_leaks_failed_connection :
  let '(r, w') :=
    get_master_connection (hdr := demo_h) (drv := demo_driver cluster)
      0%nat (Some 0) None w0 in
  r = Ret (Some 3%nat, Some 2, None) /\
  opened w' = [0%nat; 1%nat; 2%nat; 3%nat] /\
  target_of w' 1%nat = Some (connection_string_of (hdr := demo_h) "host=node1") /\
  conn_status (libpq := demo_driver cluster) w' 1%nat = CONNECTION_BAD /\
  finished w' 1%nat = false /\
  finished w' 2%nat = true /\
  unfinished w' = [0%nat; 1%nat; 3%nat].
Proof. vm_compute. repeat split; reflexivity. Qed.

(* ===================================================================== *)
(** ** More on conninfo parameter lists *)
(* ===================================================================== *)

Lemma keys_used pl : length (keys pl) = used pl.
Proof. reflexivity. Qed.

(** What [param_set] does to the keywords of a well-formed list: it keeps
    them, or appends the new one in the first free slot. *)
Lemma param_set_keywords pl k v :
  well_formed pl ->
  exists ks ks',
    keywords pl = keyword_array (size pl) ks /\
    (length ks <= size pl)%nat /\ NoDup ks /\
    size (param_set pl k v) = size pl /\
    keywords (param_set pl k v) = keyword_array (size pl) ks' /\
    (length ks' <= size pl)%nat /\
    (ks' = ks \/ (ks' = ks ++ [k] /\ k ∉ ks)).
Proof.
  intros (ks & Hk & Hle & Hnd & Hv). exists ks.
  destruct (decide (k ∈ ks)) as [Hin|Hnotin].
  - apply list_elem_of_lookup in Hin as [i Hi].
    rewrite (param_set_present pl ks k v i Hk Hle Hnd Hi). simpl.
    exists ks. auto 10.
  - destruct (decide (length ks = size pl)) as [Hfull|Hfree].
    + rewrite (param_set_full pl ks k v Hk Hfull Hnotin).
      exists ks. auto 10.
    + rewrite (param_set_new pl ks k v Hk) by (auto; lia). simpl.
      exists (ks ++ [k]). rewrite length_app. simpl.
      repeat (split; [solve [auto]|]). split; [lia|]. auto.
Qed.

Lemma keys_keyword_array pl ks :
  keywords pl = keyword_array (size pl) ks -> (length ks <= size pl)%nat ->
  keys pl = ks.
Proof. apply well_formed_stored. Qed.

Lemma param_set_used pl k v :
  well_formed pl ->
  size (param_set pl k v) = size pl /\
  (used pl <= used (param_set pl k v) <= S (used pl))%nat.
Proof.
  intros Hwf.
  destruct (param_set_keywords pl k v Hwf)
    as (ks & ks' & Hk & Hle & _ & Hs & Hk' & Hle' & Hcase).
  split; [exact Hs|].
  rewrite <- !keys_used, (keys_keyword_array pl ks Hk Hle).
  rewrite <- Hs in Hk', Hle'.
  rewrite (keys_keyword_array _ ks' Hk' Hle').
  destruct Hcase as [->|[-> _]]; [lia|]. rewrite length_app. simpl. lia.
Qed.

(** *** Setting a sequence of entries *)

Lemma set_all_cons e entries pl :
  set_all (e :: entries) pl = set_all entries (param_set pl (fst e) (snd e)).
Proof. reflexivity. Qed.

Lemma set_all_app es1 es2 pl :
  set_all (es1 ++ es2) pl = set_all es2 (set_all es1 pl).
Proof. unfold set_all. apply fold_left_app. Qed.

Lemma well_formed_set_all entries :
  forall pl, well_formed pl -> well_formed (set_all entries pl).
Proof.
  induction entries as [|e entries IH]; intros pl Hpl; [exact Hpl|].
  rewrite set_all_cons. apply IH, well_formed_param_set, Hpl.
Qed.

Lemma set_all_used entries :
  forall pl, well_formed pl ->
  size (set_all entries pl) = size pl /\
  (used (set_all entries pl) <= used pl + length entries)%nat.
Proof.
  induction entries as [|e entries IH]; intros pl Hpl.
  - simpl. split; [reflexivity|lia].
  - rewrite set_all_cons.
    destruct (param_set_used pl (fst e) (snd e) Hpl) as [Hs Hu].
    destruct (IH _ (well_formed_param_set pl (fst e) (snd e) Hpl)) as [Hs' Hu'].
    split; [congruence|]. simpl. lia.
Qed.

(** Keywords that are not set keep what is read for them. *)
Lemma set_all_other entries k :
  forall pl, well_formed pl -> last_value entries k = None ->
  param_get (set_all entries pl) k = param_get pl k.
Proof.
  induction entries as [|e entries IH]; intros pl Hpl Hlast; [reflexivity|].
  rewrite set_all_cons. simpl in Hlast.
  destruct (last_value entries k) eqn:E; [discriminate|].
  destruct (String.eqb_spec (fst e) k) as [Heq|Hne]; [discriminate|].
  rewrite IH by (auto using well_formed_param_set).
  apply param_get_param_set_other; assumption.
Qed.

(** What is read after the entries are set, when there is room for
    them: the last value given for the keyword, and what was there for a
    keyword that is not among them. *)
Lemma set_all_get entries k :
  forall pl, well_formed pl ->
  (used pl + length entries <= size pl)%nat ->
  Forall (fun e => nonempty (snd e) = true) entries ->
  param_get (set_all entries pl) k
    = match last_value entries k with
      | Some v => Some v
      | None => param_get pl k
      end.
Proof.
  induction entries as [|e entries IH]; intros pl Hpl Hroom Hval; [reflexivity|].
  rewrite set_all_cons. simpl in Hroom.
  apply Forall_cons in Hval as [Hv Hval].
  pose proof (well_formed_param_set pl (fst e) (snd e) Hpl) as Hpl'.
  destruct (param_set_used pl (fst e) (snd e) Hpl) as [Hs Hu].
  rewrite IH by (auto; lia). simpl.
  destruct (last_value entries k) as [v|]; [reflexivity|].
  destruct (String.eqb_spec (fst e) k) as [Heq|Hne].
  - subst k.
    destruct (param_set_slot pl (fst e) (snd e) Hpl)
      as (ks & i & Hk1 & Hs1 & Hle & Hnd & Hi & Hvi & _); [left; lia|].
    rewrite <- Hs1 in Hk1, Hle.
    rewrite (param_get_present _ ks (fst e) i Hk1 Hle Hnd Hi), Hvi, Hv.
    reflexivity.
  - apply param_get_param_set_other; assumption.
Qed.

(** *** The functions that fill a list, as sequences of [param_set] *)

Lemma strcmp_eqb_eqb a b : Z.eqb (strcmp a b) 0 = String.eqb a b.
Proof.
  destruct (String.eqb_spec a b) as [->|Hne];
    [apply strcmp_eqb_true | apply strcmp_eqb_false, Hne].
Qed.

Lemma fold_left_set_all {A} (f : t_conninfo_param_list -> A -> t_conninfo_param_list)
    (g : A -> option (string * string)) :
  (forall pl a, f pl a = match g a with
                         | Some e => param_set pl (fst e) (snd e)
                         | None => pl
                         end) ->
  forall l pl, fold_left f l pl = set_all (omap g l) pl.
Proof.
  intros Hf. induction l as [|a l IH]; intros pl; [reflexivity|].
  simpl. rewrite IH, Hf. destruct (g a); reflexivity.
Qed.

Lemma valued_nonempty skip options :
  Forall (fun e => nonempty (snd e) = true) (valued skip options).
Proof.
  apply List.Forall_forall. intros e He. apply list_elem_of_In in He.
  apply list_elem_of_omap in He as (o & _ & Ho).
  destruct (val o) as [v|]; [|discriminate].
  destruct (nonempty v) eqn:Hv; [|discriminate]. simpl in Ho.
  destruct skip as [k|]; [destruct (String.eqb (keyword o) k)|];
    try discriminate; injection Ho as <-; exact Hv.
Qed.

Lemma omap_length_le {A B} (f : A -> option B) (l : list A) :
  (length (omap f l) <= length l)%nat.
Proof.
  induction l as [|a l IH]; [simpl; lia|].
  cbn [omap list_omap] in *. destruct (f a); simpl; lia.
Qed.

Lemma valued_length skip options :
  (length (valued skip options) <= length options)%nat.
Proof. apply omap_length_le. Qed.

Lemma initialize_conninfo_params_set_all defs :
  initialize_conninfo_params defs true
    = set_all (valued None defs) (initialize_conninfo_params defs false).
Proof.
  unfold initialize_conninfo_params. apply fold_left_set_all.
  intros pl def. destruct (val def) as [v|]; [|reflexivity].
  destruct (nonempty v); reflexivity.
Qed.

Lemma conn_to_param_list_set_all connOptions pl :
  conn_to_param_list connOptions pl = set_all (valued None connOptions) pl.
Proof.
  unfold conn_to_param_list. apply fold_left_set_all.
  intros pl' o. destruct (val o) as [v|]; [|reflexivity].
  destruct (nonempty v); reflexivity.
Qed.

Lemma parse_conninfo_string_set_all {drv : libpq} conninfo_str pl errmsg
    (ignore_application_name : bool) connOptions :
  conninfo_parse conninfo_str = inr connOptions ->
  parse_conninfo_string conninfo_str pl errmsg ignore_application_name
    = (true,
       set_all
         (valued (if ignore_application_name
                  then Some "application_name" else None) connOptions) pl,
       errmsg).
Proof.
  intros Hparse. unfold parse_conninfo_string. rewrite Hparse.
  do 2 f_equal. apply fold_left_set_all.
  intros pl' o. destruct (val o) as [v|]; [|reflexivity].
  destruct (nonempty v); [|reflexivity]. simpl.
  rewrite strcmp_eqb_eqb.
  destruct ignore_application_name; simpl; [|reflexivity].
  destruct (String.eqb (keyword o) "application_name"); reflexivity.
Qed.

Lemma copy_conninfo_params_loop_set_all source n :
  forall c dest,
  copy_conninfo_params_loop dest source n c
    = set_all (stored_entries (drop c (take (c + n) (keywords source)))
                 (drop c (values source))) dest.
Proof.
  induction n as [|n IH]; intros c dest.
  - rewrite Nat.add_0_r, drop_ge by (rewrite length_take; lia). reflexivity.
  - simpl. destruct (keywords source !! c) as [o|] eqn:E.
    + rewrite (drop_S _ o c) by (rewrite lookup_take_lt by lia; exact E).
      replace (c + S n)%nat with (S c + n)%nat by lia.
      destruct o as [kw|]; [|reflexivity].
      cbn [stored_entries]. rewrite set_all_app, IH.
      destruct (values source !! c) as [ov|] eqn:Ev.
      * rewrite (drop_S _ ov c Ev). cbn [tail].
        destruct ov as [v|]; [|reflexivity].
        destruct (nonempty v); reflexivity.
      * apply lookup_ge_None in Ev.
        rewrite (drop_ge (values source) c) by lia.
        rewrite (drop_ge (values source) (S c)) by lia. reflexivity.
    + apply lookup_ge_None in E.
      rewrite drop_ge by (rewrite length_take; lia). reflexivity.
Qed.

Lemma copy_conninfo_params_set_all dest source :
  copy_conninfo_params dest source
    = set_all (stored_entries (take (size source) (keywords source))
                 (values source)) dest.
Proof.
  unfold copy_conninfo_params. rewrite copy_conninfo_params_loop_set_all.
  reflexivity.
Qed.

Lemma last_value_app es1 es2 k :
  last_value (es1 ++ es2) k
    = match last_value es2 k with
      | Some v => Some v
      | None => last_value es1 k
      end.
Proof.
  induction es1 as [|e es1 IH]; simpl.
  - destruct (last_value es2 k); reflexivity.
  - rewrite IH. destruct (last_value es2 k); reflexivity.
Qed.

Lemma stored_entries_nonempty kws :
  forall vals, Forall (fun e => nonempty (snd e) = true) (stored_entries kws vals).
Proof.
  induction kws as [|[kw|] kws IH]; intros vals; cbn [stored_entries];
    try constructor.
  apply Forall_app. split; [|apply IH].
  destruct vals as [|[v|] vals]; try constructor.
  destruct (nonempty v) eqn:Hv; repeat constructor. exact Hv.
Qed.

Lemma stored_entries_length kws :
  forall vals, (length (stored_entries kws vals) <= length (stored kws))%nat.
Proof.
  induction kws as [|[kw|] kws IH]; intros vals; cbn [stored_entries stored];
    try (simpl; lia).
  rewrite length_app. specialize (IH (tail vals)).
  destruct vals as [|[v|] vals]; simpl in *; try lia.
  all: try (destruct (nonempty v); simpl; lia).
Qed.

Lemma last_value_stored_entries_absent (ks : list string) n k :
  forall vals, k ∉ ks ->
  last_value (stored_entries ((Some <$> ks) ++ replicate n None) vals) k = None.
Proof.
  induction ks as [|x ks IH]; intros vals Hnotin.
  - destruct n; reflexivity.
  - apply not_elem_of_cons in Hnotin as [Hne Hnotin].
    rewrite fmap_cons. cbn [app stored_entries].
    rewrite last_value_app, IH by exact Hnotin.
    destruct vals as [|[v|] vals]; try reflexivity.
    destruct (nonempty v); [|reflexivity]. simpl.
    destruct (String.eqb_spec x k); congruence.
Qed.

Lemma last_value_stored_entries (ks : list string) n k :
  forall vals i, NoDup ks -> ks !! i = Some k ->
  last_value (stored_entries ((Some <$> ks) ++ replicate n None) vals) k
    = match vals !! i with
      | Some (Some v) => if nonempty v then Some v else None
      | _ => None
      end.
Proof.
  induction ks as [|x ks IH]; intros vals i Hnd Hi; [discriminate|].
  apply NoDup_cons in Hnd as [Hx Hnd].
  rewrite fmap_cons. cbn [app stored_entries]. rewrite last_value_app.
  destruct i as [|i]; simpl in Hi.
  - injection Hi as ->.
    rewrite last_value_stored_entries_absent by exact Hx.
    destruct vals as [|[v|] vals]; try reflexivity. simpl.
    destruct (nonempty v); [|reflexivity]. simpl.
    rewrite String.eqb_refl. reflexivity.
  - rewrite (IH (tail vals) i Hnd Hi).
    assert (Hne : x <> k)
      by (intros ->; apply Hx; eapply list_elem_of_lookup_2, Hi).
    replace (tail vals !! i) with (vals !! S i) by (destruct vals; reflexivity).
    destruct (vals !! S i) as [[v|]|] eqn:E.
    + destruct (nonempty v); [reflexivity|].
      destruct vals as [|[v0|] vals]; try reflexivity.
      destruct (nonempty v0); [|reflexivity]. simpl.
      destruct (String.eqb_spec x k); congruence.
    + destruct vals as [|[v0|] vals]; try reflexivity.
      destruct (nonempty v0); [|reflexivity]. simpl.
      destruct (String.eqb_spec x k); congruence.
    + destruct vals as [|[v0|] vals]; try reflexivity.
      destruct (nonempty v0); [|reflexivity]. simpl.
      destruct (String.eqb_spec x k); congruence.
Qed.

(** On a well-formed list the last value among its entries is what
    [param_get] reads. *)
Lemma last_value_param_get source k :
  well_formed source ->
  last_value (stored_entries (take (size source) (keywords source))
                (values source)) k
    = param_get source k.
Proof.
  intros (ks & Hk & Hle & Hnd & Hv).
  rewrite Hk, keyword_array_take by exact Hle.
  destruct (decide (k ∈ ks)) as [Hin|Hnotin].
  - apply list_elem_of_lookup in Hin as [i Hi].
    rewrite (last_value_stored_entries ks _ k _ i Hnd Hi).
    symmetry. apply (param_get_present source ks k i Hk Hle Hnd Hi).
  - rewrite last_value_stored_entries_absent by exact Hnotin.
    symmetry. apply (param_get_absent source ks k Hk Hle Hnotin).
Qed.

(** X1: [param_set] never removes a keyword and never changes the
    capacity: every keyword the list held is still held, a keyword held
    afterwards was held before or is the one that was set, and the number
    of slots in use grows by one at most. *)
Theorem param_set_keeps_keywords pl k v :
  well_formed pl ->
  size (param_set pl k v) = size pl /\
  (forall k', k' ∈ keys pl -> k' ∈ keys (param_set pl k v)) /\
  (forall k', k' ∈ keys (param_set pl k v) -> k' = k \/ k' ∈ keys pl) /\
  (used pl <= used (param_set pl k v) <= S (used pl))%nat.
Proof.
  intros Hwf.
  destruct (param_set_keywords pl k v Hwf)
    as (ks & ks' & Hk & Hle & _ & Hs & Hk' & Hle' & Hcase).
  destruct (param_set_used pl k v Hwf) as [_ Hu].
  rewrite (keys_keyword_array pl ks Hk Hle).
  rewrite <- Hs in Hk', Hle'. rewrite (keys_keyword_array _ ks' Hk' Hle').
  split; [exact Hs|]. split; [|split; [|exact Hu]].
  - intros k' Hin. destruct Hcase as [->|[-> _]]; [exact Hin|].
    apply elem_of_app. left. exact Hin.
  - intros k' Hin. destruct Hcase as [->|[-> _]]; [right; exact Hin|].
    apply elem_of_app in Hin as [Hin|Hin]; [right; exact Hin|].
    apply list_elem_of_singleton in Hin. left. exact Hin.
Qed.

Lemma param_set_keeps_keywords_witness :
  size (param_set demo_list "host" "db1") = size demo_list /\
  (forall k', k' ∈ keys demo_list -> k' ∈ keys (param_set demo_list "host" "db1")) /\
  (forall k', k' ∈ keys (param_set demo_list "host" "db1") ->
              k' = "host" \/ k' ∈ keys demo_list) /\
  (used demo_list <= used (param_set demo_list "host" "db1")
     <= S (used demo_list))%nat.
Proof.
  apply (param_set_keeps_keywords demo_list "host" "db1").
  apply well_formed_initialize.
Defined.

(** X2: on a list without a free slot, [param_set] of a keyword the list
    does not hold changes nothing, and the keyword still reads as absent:
    the value is lost without a sign. *)
Theorem param_set_full_list_is_silent pl k v :
  well_formed pl -> used pl = size pl -> k ∉ keys pl ->
  param_set pl k v = pl /\ param_get (param_set pl k v) k = None.
Proof.
  intros (ks & Hk & Hle & Hnd & Hv) Hfull Hnotin.
  rewrite (well_formed_used pl ks Hk Hle) in Hfull.
  rewrite (keys_keyword_array pl ks Hk Hle) in Hnotin.
  rewrite (param_set_full pl ks k v Hk Hfull Hnotin).
  split; [reflexivity|]. apply (param_get_absent pl ks k Hk Hle Hnotin).
Qed.

Lemma param_set_full_list_is_silent_witness :
  param_set full_list "sslmode" "require" = full_list /\
  param_get (param_set full_list "sslmode" "require") "sslmode" = None.
Proof.
  apply (param_set_full_list_is_silent full_list "sslmode" "require").
  - unfold full_list. repeat apply well_formed_param_set.
    apply well_formed_initialize.
  - reflexivity.
  - vm_compute. intros H.
    repeat (apply elem_of_cons in H as [H|H]; [discriminate|]).
    inversion H.
Defined.

(** X3: setting one keyword does not change what [param_get] reads for
    another. *)
Theorem param_set_leaves_other_keywords pl k k' v :
  well_formed pl -> k' <> k ->
  param_get (param_set pl k' v) k = param_get pl k.
Proof. apply param_get_param_set_other. Qed.

Lemma param_set_leaves_other_keywords_witness :
  param_get (param_set full_list "host" "db9") "port" = param_get full_list "port".
Proof.
  apply (param_set_leaves_other_keywords full_list "port" "host" "db9").
  - unfold full_list. repeat apply well_formed_param_set.
    apply well_formed_initialize.
  - discriminate.
Defined.

(** X4: a second [param_set] of the same keyword leaves no trace of the
    first: the list is the one the second alone gives (so setting the same
    value twice is setting it once). *)
Theorem param_set_overwrites pl k v1 v2 :
  well_formed pl ->
  param_set (param_set pl k v1) k v2 = param_set pl k v2.
Proof.
  intros (ks & Hk & Hle & Hnd & Hv).
  destruct (decide (k ∈ ks)) as [Hin|Hnotin].
  - apply list_elem_of_lookup in Hin as [i Hi].
    rewrite (param_set_present pl ks k v1 i Hk Hle Hnd Hi).
    rewrite (param_set_present pl ks k v2 i Hk Hle Hnd Hi).
    rewrite (param_set_present (mk_param_list _ _ _) ks k v2 i Hk Hle Hnd Hi).
    simpl. rewrite list_insert_insert_eq. reflexivity.
  - destruct (decide (length ks = size pl)) as [Hfull|Hfree].
    + rewrite (param_set_full pl ks k v1 Hk Hfull Hnotin). reflexivity.
    + assert (Hlt : (length ks < size pl)%nat) by lia.
      rewrite (param_set_new pl ks k v1 Hk Hlt Hnotin).
      rewrite (param_set_new pl ks k v2 Hk Hlt Hnotin).
      assert (Hnd' : NoDup (ks ++ [k])).
      { apply NoDup_app. repeat split; [exact Hnd| |apply NoDup_singleton].
        intros x Hx Hx'. apply list_elem_of_singleton in Hx'. subst. auto. }
      assert (Hle' : (length (ks ++ [k]) <= size pl)%nat)
        by (rewrite length_app; simpl; lia).
      assert (Hi : (ks ++ [k]) !! length ks = Some k)
        by (rewrite lookup_app_r by lia; rewrite Nat.sub_diag; reflexivity).
      rewrite (param_set_present
                 (mk_param_list (size pl) (keyword_array (size pl) (ks ++ [k])) _)
                 (ks ++ [k]) k v2 (length ks) eq_refl Hle' Hnd' Hi).
      simpl. rewrite list_insert_insert_eq. reflexivity.
Qed.

Lemma param_set_overwrites_witness :
  param_set (param_set demo_list "host" "db1") "host" "db2"
    = param_set demo_list "host" "db2".
Proof.
  apply (param_set_overwrites demo_list "host" "db1" "db2").
  apply well_formed_initialize.
Defined.

(** X5: the shape of a list (keywords in use first, pairwise different,
    [size + 1] slots in both arrays) is what [initialize_conninfo_params]
    builds, and [param_set], [copy_conninfo_params], [parse_conninfo_string]
    and [conn_to_param_list] keep it. *)
Theorem well_formed_is_kept {drv : libpq} pl defs set_defaults k v source conninfo_str
    errmsg ignore_application_name connOptions :
  well_formed pl ->
  well_formed (initialize_conninfo_params defs set_defaults) /\
  well_formed (param_set pl k v) /\
  well_formed (copy_conninfo_params pl source) /\
  well_formed
    (snd (fst (parse_conninfo_string conninfo_str pl errmsg
                 ignore_application_name))) /\
  well_formed (conn_to_param_list connOptions pl).
Proof.
  intros Hpl.
  split; [apply well_formed_initialize|].
  split; [apply well_formed_param_set, Hpl|].
  split; [apply well_formed_copy, Hpl|].
  split; [apply well_formed_parse, Hpl|].
  rewrite conn_to_param_list_set_all. apply well_formed_set_all, Hpl.
Qed.

Lemma well_formed_is_kept_witness :
  well_formed (initialize_conninfo_params demo_defs true) /\
  well_formed (param_set full_list "host" "db9") /\
  well_formed (copy_conninfo_params full_list demo_list) /\
  well_formed
    (snd (fst (parse_conninfo_string (drv := demo_driver cluster)
                 "host=node2" full_list None true))) /\
  well_formed (conn_to_param_list demo_defs full_list).
Proof.
  apply (well_formed_is_kept (drv := demo_driver cluster) full_list demo_defs true
           "host" "db9" demo_list "host=node2" None true demo_defs).
  unfold full_list. repeat apply well_formed_param_set.
  apply well_formed_initialize.
Defined.

Lemma initialize_conninfo_params_empty defs :
  well_formed (initialize_conninfo_params defs false) /\
  size (initialize_conninfo_params defs false) = length defs /\
  used (initialize_conninfo_params defs false) = 0%nat /\
  forall k, param_get (initialize_conninfo_params defs false) k = None.
Proof.
  split; [apply well_formed_initialize|]. split; [reflexivity|].
  assert (Hkeys : keys (initialize_conninfo_params defs false) = [])
    by (unfold keys; simpl; destruct (length defs); reflexivity).
  split; [rewrite <- keys_used, Hkeys; reflexivity|].
  intros k. apply param_get_unset. fold (keys (initialize_conninfo_params defs false)).
  rewrite Hkeys. apply not_elem_of_nil.
Qed.

(** X6: a list made by [initialize_conninfo_params] always has room for the
    defaults: with [set_defaults] every keyword reads as the last default
    of the driver for it that is not empty, and as absent when there is
    none; without [set_defaults] every keyword reads as absent. *)
Theorem initialize_conninfo_params_reads defs k :
  param_get (initialize_conninfo_params defs true) k
    = last_value (valued None defs) k /\
  param_get (initialize_conninfo_params defs false) k = None.
Proof.
  destruct (initialize_conninfo_params_empty defs) as (Hwf & Hs & Hu & Hget).
  split; [|apply Hget].
  rewrite initialize_conninfo_params_set_all.
  rewrite set_all_get; [rewrite Hget; destruct (last_value _ k); reflexivity | exact Hwf | | apply valued_nonempty].
  rewrite Hu, Hs. apply valued_length.
Qed.

(** X7: [copy_conninfo_params] merges: when the destination has room for
    the entries of the source, a keyword reads afterwards as in the source
    where the source has a value for it, and as it did in the destination
    where the source has none. *)
Theorem copy_conninfo_params_merges dest source k :
  well_formed dest -> well_formed source ->
  (used dest + used source <= size dest)%nat ->
  param_get (copy_conninfo_params dest source) k
    = match param_get source k with
      | Some v => Some v
      | None => param_get dest k
      end.
Proof.
  intros Hdest Hsource Hroom.
  rewrite copy_conninfo_params_set_all.
  rewrite set_all_get; [| exact Hdest | | apply stored_entries_nonempty].
  - rewrite (last_value_param_get source k Hsource). reflexivity.
  - pose proof (stored_entries_length (take (size source) (keywords source))
                  (values source)) as Hlen.
    unfold used in Hroom at 2. lia.
Qed.

Lemma copy_conninfo_params_merges_witness :
  param_get (copy_conninfo_params roomy_list full_list) "host" = Some "db1" /\
  param_get (copy_conninfo_params roomy_list full_list) "sslmode"
    = Some "require".
Proof.
  assert (Hd : well_formed roomy_list)
    by (unfold roomy_list; repeat apply well_formed_param_set;
        apply well_formed_initialize).
  assert (Hs : well_formed full_list)
    by (unfold full_list; repeat apply well_formed_param_set;
        apply well_formed_initialize).
  assert (Hroom : (used roomy_list + used full_list <= size roomy_list)%nat)
    by (vm_compute; lia).
  split.
  - rewrite (copy_conninfo_params_merges roomy_list full_list "host" Hd Hs Hroom).
    reflexivity.
  - rewrite (copy_conninfo_params_merges roomy_list full_list "sslmode" Hd Hs Hroom).
    reflexivity.
Defined.

Lemma last_value_valued_skip k options :
  last_value (valued (Some k) options) k = None.
Proof.
  unfold valued. induction options as [|o options IH]; [reflexivity|].
  cbn [omap list_omap] in *.
  destruct (val o) as [v|]; [|exact IH].
  destruct (negb (nonempty v)); [exact IH|].
  destruct (String.eqb_spec (keyword o) k) as [Heq|Hne]; [exact IH|].
  cbn [last_value fst snd]. rewrite IH.
  destruct (String.eqb_spec (keyword o) k); congruence.
Qed.

(** X8: after a successful [parse_conninfo_string] into a list with room
    for the options, a keyword reads as the last value the parser gave for
    it (empty values, and [application_name] when it is to be ignored, do
    not count) and as it did before when the parser gave none; and with
    [ignore_application_name] the entry of [application_name] is never
    touched, whatever the room. *)
Theorem parse_conninfo_string_reads {drv : libpq} conninfo_str pl errmsg
    (ignore_application_name : bool) connOptions k :
  conninfo_parse conninfo_str = inr connOptions ->
  well_formed pl ->
  let skip := if ignore_application_name
              then Some "application_name" else None in
  let parsed := parse_conninfo_string conninfo_str pl errmsg
                  ignore_application_name in
  fst (fst parsed) = true /\
  ((used pl + length (valued skip connOptions) <= size pl)%nat ->
   param_get (snd (fst parsed)) k
     = match last_value (valued skip connOptions) k with
       | Some v => Some v
       | None => param_get pl k
       end) /\
  (ignore_application_name = true ->
   param_get (snd (fst parsed)) "application_name"
     = param_get pl "application_name").
Proof.
  intros Hparse Hpl skip parsed. unfold parsed.
  rewrite (parse_conninfo_string_set_all conninfo_str pl errmsg
             ignore_application_name connOptions Hparse).
  cbn [fst snd]. fold skip. split; [reflexivity|]. split.
  - intros Hroom. apply set_all_get; auto using valued_nonempty.
  - intros ->. unfold skip. apply set_all_other; [exact Hpl|].
    apply last_value_valued_skip.
Qed.

Lemma parse_conninfo_string_reads_witness :
  param_get
    (snd (fst (parse_conninfo_string (drv := demo_driver cluster)
                 "application_name=psql" roomy_list None true)))
    "application_name"
  = param_get roomy_list "application_name".
Proof.
  refine (proj2 (proj2 (parse_conninfo_string_reads
                          (drv := demo_driver cluster)
                          "application_name=psql" roomy_list None true
                          [mk_option "application_name" (Some "psql")]
                          "host" _ _)) _).
  - reflexivity.
  - unfold roomy_list. repeat apply well_formed_param_set.
    apply well_formed_initialize.
  - reflexivity.
Defined.

(** X9: after [conn_to_param_list] into a list with room for them, every
    parameter of the connection that has a value which is not empty reads
    from the list with that value, and every other keyword reads as it
    did before. *)
Theorem conn_to_param_list_reads connOptions pl k :
  well_formed pl ->
  (used pl + length (valued None connOptions) <= size pl)%nat ->
  param_get (conn_to_param_list connOptions pl) k
    = match last_value (valued None connOptions) k with
      | Some v => Some v
      | None => param_get pl k
      end.
Proof.
  intros Hpl Hroom. rewrite conn_to_param_list_set_all.
  apply set_all_get; auto using valued_nonempty.
Qed.

Lemma conn_to_param_list_reads_witness :
  param_get (conn_to_param_list demo_defs roomy_list) "port" = Some "5432" /\
  param_get (conn_to_param_list demo_defs roomy_list) "sslmode"
    = Some "require".
Proof.
  assert (Hwf : well_formed roomy_list)
    by (unfold roomy_list; repeat apply well_formed_param_set;
        apply well_formed_initialize).
  assert (Hroom : (used roomy_list + length (valued None demo_defs)
                   <= size roomy_list)%nat) by (vm_compute; lia).
  split.
  - rewrite (conn_to_param_list_reads demo_defs roomy_list "port" Hwf Hroom).
    reflexivity.
  - rewrite (conn_to_param_list_reads demo_defs roomy_list "sslmode" Hwf Hroom).
    reflexivity.
Defined.

Section AsUser.
Context {hdr : repmgr_h} {drv : libpq}.

Lemma establish_db_connection_by_params_returns kws vals w :
  exists evs,
    establish_db_connection_by_params kws vals false w
      = (Ret (fresh w), evs ++ EvConnect (ByParams kws vals) (fresh w) :: w) /\
    connect_strings evs = [] /\ opened evs = [] /\
    (forall c, finished evs c = false).
Proof.
  unfold establish_db_connection_by_params, set_config, _set_config.
  run_driver. repeat case_if;
    first [ exists []; repeat split; reflexivity
          | eexists [EvExec _ _]; repeat split; reflexivity ].
Qed.

(** X10: when the parser accepts the string, the user is not empty and the
    driver knows more keywords than the string sets,
    [establish_db_connection_as_user] asks for one connection, by
    parameters, and returns it; in these parameters [user] is the given
    user, [application_name] is absent, and every other keyword has the
    value the string gave it. *)
Theorem establish_db_connection_as_user_params defs conninfo user
    exit_on_error w connOptions :
  conninfo_parse conninfo = inr connOptions ->
  nonempty user = true ->
  (length (valued (Some "application_name") connOptions) < length defs)%nat ->
  exists kws vals evs,
    establish_db_connection_as_user defs conninfo user exit_on_error w
      = (Ret (Some (fresh w)),
         evs ++ EvConnect (ByParams kws vals) (fresh w) :: w) /\
    opened evs = [] /\
    param_get (mk_param_list (length defs) kws vals) "user" = Some user /\
    param_get (mk_param_list (length defs) kws vals) "application_name"
      = None /\
    (forall k, k <> "user" ->
       param_get (mk_param_list (length defs) kws vals) k
         = last_value (valued (Some "application_name") connOptions) k).
Proof.
  intros Hparse Huser Hroom.
  destruct (initialize_conninfo_params_empty defs) as (Hwf0 & Hs0 & Hu0 & Hget0).
  set (pl0 := initialize_conninfo_params defs false) in *.
  set (entries := valued (Some "application_name") connOptions) in *.
  set (pl1 := set_all entries pl0).
  assert (Hwf1 : well_formed pl1) by apply well_formed_set_all, Hwf0.
  destruct (set_all_used entries pl0 Hwf0) as [Hs1 Hu1]. fold pl1 in Hs1, Hu1.
  assert (Hget1 : forall k, param_get pl1 k = last_value entries k).
  { intros k. unfold pl1. rewrite set_all_get;
      [rewrite Hget0; destruct (last_value entries k); reflexivity
      | exact Hwf0 | lia | apply valued_nonempty]. }
  set (pl2 := param_set pl1 "user" user).
  destruct (param_set_slot pl1 "user" user Hwf1)
    as (ks & i & Hk2 & Hs2 & Hle2 & Hnd2 & Hi2 & Hvi2 & _); [left; lia|].
  fold pl2 in Hk2, Hs2, Hvi2.
  destruct (establish_db_connection_by_params_returns
              (keywords pl2) (values pl2) w) as (evs & Hconn & _ & Hop & _).
  exists (keywords pl2), (values pl2), evs.
  assert (Hpl2 : mk_param_list (length defs) (keywords pl2) (values pl2) = pl2).
  { rewrite <- Hs0, <- Hs1, <- Hs2. destruct pl2; reflexivity. }
  rewrite Hpl2. split; [|split; [exact Hop|split; [|split]]].
  - unfold establish_db_connection_as_user. fold pl0.
    rewrite (parse_conninfo_string_set_all conninfo pl0 None true connOptions Hparse).
    fold entries pl1 pl2. cbn [negb]. run_driver.
    rewrite Hconn. reflexivity.
  - rewrite <- Hs2 in Hk2, Hle2.
    rewrite (param_get_present pl2 ks "user" i Hk2 Hle2 Hnd2 Hi2), Hvi2, Huser.
    reflexivity.
  - unfold pl2. rewrite param_get_param_set_other by (auto; discriminate).
    rewrite Hget1. apply last_value_valued_skip.
  - intros k Hk. unfold pl2.
    rewrite param_get_param_set_other by auto. apply Hget1.
Qed.

End AsUser.

Lemma establish_db_connection_as_user_params_witness :
  exists kws vals evs,
    establish_db_connection_as_user (hdr := demo_h) (drv := demo_driver cluster)
      demo_defs "host=node2" "repmgr" false w0
      = (Ret (Some 1%nat), evs ++ EvConnect (ByParams kws vals) 1%nat :: w0) /\
    opened evs = [] /\
    param_get (mk_param_list 3 kws vals) "user" = Some "repmgr" /\
    param_get (mk_param_list 3 kws vals) "application_name" = None /\
    (forall k, k <> "user" ->
       param_get (mk_param_list 3 kws vals) k
         = last_value [("host", "node2")] k).
Proof.
  refine (establish_db_connection_as_user_params
            (hdr := demo_h) (drv := demo_driver cluster)
            demo_defs "host=node2" "repmgr" false w0
            [mk_option "host" (Some "node2")] _ _ _).
  - reflexivity.
  - reflexivity.
  - vm_compute. lia.
Defined.

(* ===================================================================== *)
(** ** Node types and node records *)
(* ===================================================================== *)

Lemma parse_node_type_of_name (t : t_server_type) :
  parse_node_type (get_node_type_string t) = t.
Proof. destruct t; reflexivity. Qed.

(** X11: the name of a node type parses back to the type, [unknown]
    included; a string parses to [UNKNOWN] exactly when it is none of the
    four names, and any other string is the name of the type it parses
    to. *)
Theorem parse_node_type_round_trip :
  (forall t, parse_node_type (get_node_type_string t) = t) /\
  (forall s, parse_node_type s = UNKNOWN <->
             s <> "master" /\ s <> "standby" /\ s <> "witness" /\ s <> "bdr") /\
  (forall s, parse_node_type s <> UNKNOWN ->
             get_node_type_string (parse_node_type s) = s).
Proof.
  split; [exact parse_node_type_of_name|].
  assert (Hcases : forall s,
    (s = "master" /\ parse_node_type s = MASTER) \/
    (s = "standby" /\ parse_node_type s = STANDBY) \/
    (s = "witness" /\ parse_node_type s = WITNESS) \/
    (s = "bdr" /\ parse_node_type s = BDR) \/
    (s <> "master" /\ s <> "standby" /\ s <> "witness" /\ s <> "bdr" /\
     parse_node_type s = UNKNOWN)).
  { intros s. unfold parse_node_type. rewrite !strcmp_eqb_eqb.
    destruct (String.eqb_spec s "master"); [auto|].
    destruct (String.eqb_spec s "standby"); [auto|].
    destruct (String.eqb_spec s "witness"); [auto 6|].
    destruct (String.eqb_spec s "bdr"); auto 10. }
  split; intros s.
  - destruct (Hcases s) as [[-> H]|[[-> H]|[[-> H]|[[-> H]|(H1 & H2 & H3 & H4 & H)]]]];
      rewrite H; split; try discriminate; try tauto.
    all: intros (H1 & H2 & H3 & H4); congruence.
  - destruct (Hcases s) as [[-> H]|[[-> H]|[[-> H]|[[-> H]|(H1 & H2 & H3 & H4 & H)]]]];
      rewrite H; try reflexivity. congruence.
Qed.

Section NodeRecordReading.
Context {hdr : repmgr_h} {rec_h : node_record_h} {drv : libpq}.

Lemma atobool_flag (b : bool) : atobool (if b then "t" else "f") = b.
Proof. destruct b; reflexivity. Qed.

(** X12: a node record written as a row (numbers in decimal, the type by
    its name, null for no upstream and for an empty slot name, [t] or [f]
    for the flag) is read back by [_populate_node_record] field for field,
    with the three fields that are not stored reset; whatever
    [node_info] held before is gone. *)
Theorem populate_node_record_round_trip node_info before status :
  (String.length (node_name node_info) < MAXLEN)%nat ->
  (String.length (conninfo node_info) < MAXLEN)%nat ->
  (String.length (slot_name node_info) < MAXLEN)%nat ->
  _populate_node_record
    (Some (mk_result status [node_info_row node_info])) before 0
  = as_read node_info.
Proof.
  intros Hname Hconninfo Hslot.
  unfold _populate_node_record, as_read, node_info_row, PQgetvalue, PQgetisnull.
  cbn [tuples lookup list_lookup].
  rewrite !atoi_fmt_i, atobool_flag.
  rewrite parse_node_type_of_name.
  rewrite !strncpy_fits by lia.
  f_equal.
  - destruct (Z.eqb (upstream_node_id node_info) NO_UPSTREAM_NODE) eqn:E.
    + apply Z.eqb_eq in E. congruence.
    + apply atoi_fmt_i.
  - destruct (slot_name node_info) as [|a s] eqn:E; cbn [nonempty].
    + destruct MAXLEN; reflexivity.
    + apply strncpy_fits. lia.
Qed.

Lemma filter_key nodes n :
  NoDup (map r_node_id nodes) -> In n nodes ->
  List.filter (fun r => Z.eqb (r_node_id r) (r_node_id n)) nodes = [n].
Proof.
  induction nodes as [|x nodes IH]; intros Hnd Hin; [contradiction|].
  simpl in Hnd. apply NoDup_cons in Hnd as [Hx Hnd]. simpl.
  assert (Hnone : forall m, ~ In (r_node_id m) (map r_node_id nodes) ->
            List.filter (fun r => Z.eqb (r_node_id r) (r_node_id m)) nodes = []).
  { clear. intros m Hm. induction nodes as [|y nodes IH]; [reflexivity|].
    simpl. destruct (Z.eqb_spec (r_node_id y) (r_node_id m)) as [E|E].
    - exfalso. apply Hm. left. exact E.
    - apply IH. intros H. apply Hm. right. exact H. }
  destruct Hin as [->|Hin].
  - rewrite Z.eqb_refl. f_equal. apply Hnone.
    intros H. apply Hx, list_elem_of_In, H.
  - destruct (Z.eqb_spec (r_node_id x) (r_node_id n)) as [E|E].
    + exfalso. apply Hx. rewrite E. apply list_elem_of_In, in_map, Hin.
    + apply IH; assumption.
Qed.

(** X13: when the driver answers the query of [get_node_record] from the
    relation, the call returns [NODE_RECORD_NOT_FOUND] and leaves
    [node_info] alone if no node has the id; with [node_id] a key and the
    text fields within [MAXLEN], it returns 1 and the record of the node
    that has the id; and when the statement fails it returns
    [NODE_RECORD_QUERY_ERROR] and leaves [node_info] alone. *)
Theorem get_node_record_reads conn id node_info w nodes :
  let w' := EvExec conn (get_node_record_query id) :: w in
  (exec_result w conn (get_node_record_query id)
     = Some (get_node_record_result nodes id) ->
   (forall n, In n nodes -> r_node_id n <> id) ->
   get_node_record conn id node_info w
     = (Ret (NODE_RECORD_NOT_FOUND, node_info), w')) /\
  (forall n,
   exec_result w conn (get_node_record_query id)
     = Some (get_node_record_result nodes id) ->
   NoDup (map r_node_id nodes) -> In n nodes -> r_node_id n = id ->
   (String.length (r_node_name n) < MAXLEN)%nat ->
   (String.length (r_conninfo n) < MAXLEN)%nat ->
   (String.length (default EmptyString (r_slot_name n)) < MAXLEN)%nat ->
   get_node_record conn id node_info w = (Ret (1, node_info_of n), w')) /\
  (PQresultStatus (exec_result w conn (get_node_record_query id))
     <> PGRES_TUPLES_OK ->
   get_node_record conn id node_info w
     = (Ret (NODE_RECORD_QUERY_ERROR, node_info), w')).
Proof.
  intros w'. unfold get_node_record, _get_node_record. run_driver.
  split; [|split].
  - intros Hres Hnone. rewrite Hres. cbn [PQresultStatus resultStatus
      get_node_record_result ExecStatusType_eqb negb PQntuples tuples].
    replace (List.filter (fun r => Z.eqb (r_node_id r) id) nodes)
      with (@nil nodes_row); [reflexivity|].
    symmetry. clear - Hnone. induction nodes as [|x nodes IH]; [reflexivity|].
    simpl. destruct (Z.eqb_spec (r_node_id x) id) as [E|E].
    + exfalso. apply (Hnone x); [left; reflexivity|exact E].
    + apply IH. intros n Hn. apply Hnone. right. exact Hn.
  - intros n Hres Hkey Hin <- Hname Hconninfo Hslot. rewrite Hres.
    apply Nat.lt_le_incl in Hname, Hconninfo, Hslot.
    unfold get_node_record_result. rewrite (filter_key nodes n Hkey Hin).
    cbn [PQresultStatus resultStatus ExecStatusType_eqb negb PQntuples tuples
         map length Nat.eqb Z.of_nat Pos.of_succ_nat].
    do 3 f_equal.
    unfold _populate_node_record, node_info_of, nodes_row_fields,
      PQgetvalue, PQgetisnull.
    cbn [tuples lookup list_lookup].
    rewrite !atoi_fmt_i, atobool_flag, !strncpy_fits by assumption.
    f_equal.
    destruct (r_upstream_node_id n); [apply atoi_fmt_i|reflexivity].
  - intros Hbad.
    destruct (PQresultStatus (exec_result w conn (get_node_record_query id)));
      try reflexivity. congruence.
Qed.

(** X14: when the driver answers the query of [get_master_node_id] from
    the relation, in whatever order, the call returns the id of a node that
    is registered as an active master if there is one, and
    [NODE_NOT_FOUND] if there is none; a failed statement gives
    [NODE_NOT_FOUND] too. *)
Theorem get_master_node_id_reads conn w nodes rows :
  let w' := EvExec conn get_master_node_id_query :: w in
  (exec_result w conn get_master_node_id_query
     = Some (mk_result PGRES_TUPLES_OK (map node_id_field rows)) ->
   Permutation rows (List.filter active_master nodes) ->
   exists id,
     get_master_node_id conn w = (Ret id, w') /\
     ((forall n, In n nodes -> active_master n = false) ->
      id = NODE_NOT_FOUND) /\
     (forall m, In m nodes -> active_master m = true ->
      exists n, In n nodes /\ r_type n = "master" /\ r_active n = true /\
                id = r_node_id n)) /\
  (PQresultStatus (exec_result w conn get_master_node_id_query)
     <> PGRES_TUPLES_OK ->
   get_master_node_id conn w = (Ret NODE_NOT_FOUND, w')).
Proof.
  intros w'. unfold get_master_node_id. run_driver. split.
  - intros Hres Hperm. rewrite Hres.
    cbn [PQresultStatus resultStatus ExecStatusType_eqb negb PQntuples tuples].
    rewrite length_map.
    destruct rows as [|r rows].
    + exists NODE_NOT_FOUND. split; [reflexivity|]. split; [reflexivity|].
      intros m Hm Hact. exfalso.
      assert (Hin : In m (List.filter active_master nodes))
        by (apply filter_In; auto).
      apply Permutation_sym in Hperm.
      apply (Permutation_in _ Hperm) in Hin. contradiction.
    + exists (r_node_id r). split.
      { cbn [length Nat.eqb]. do 2 f_equal.
        unfold PQgetvalue. cbn. apply atoi_fmt_i. }
      assert (Hin : In r (List.filter active_master nodes))
        by (apply (Permutation_in _ Hperm); left; reflexivity).
      apply filter_In in Hin as [Hin Hact].
      split.
      * intros Hnone. rewrite (Hnone r Hin) in Hact. discriminate.
      * intros _ _ _. exists r. unfold active_master in Hact.
        apply andb_true_iff in Hact as [Ht Ha].
        apply String.eqb_eq in Ht. auto.
  - intros Hbad.
    destruct (PQresultStatus (exec_result w conn get_master_node_id_query));
      try reflexivity. congruence.
Qed.

End NodeRecordReading.

(* ===================================================================== *)
(** ** More on connections and primary discovery *)
(* ===================================================================== *)

Section DriverReading.
Context {hdr : repmgr_h} {drv : libpq}.

(** X15: [is_standby] sends its one statement and returns -1, 0 or 1:
    -1 exactly when the driver gives no result with status
    [PGRES_TUPLES_OK], 1 exactly when that result has one row whose first
    value is [t], and 0 otherwise. *)
Theorem is_standby_answers conn w :
  let probe := "SELECT pg_catalog.pg_is_in_recovery()" in
  let res := exec_result w conn probe in
  exists s,
    is_standby conn w = (Ret s, EvExec conn probe :: w) /\
    (s = -1 \/ s = 0 \/ s = 1) /\
    (s = -1 <-> PQresultStatus res <> PGRES_TUPLES_OK) /\
    (s = 1 <-> PQresultStatus res = PGRES_TUPLES_OK /\
               PQntuples res = 1%nat /\ PQgetvalue res 0 0 = "t").
Proof.
  intros probe res. unfold is_standby. run_driver. fold probe res.
  destruct res as [r|] eqn:Eres; cbn [PQresultStatus orb].
  - destruct (resultStatus r) eqn:Est; cbn [ExecStatusType_eqb negb];
      try (exists (-1); split; [reflexivity|]; split; [auto|];
           split; split; try discriminate; try reflexivity;
           intros [H _]; discriminate).
    destruct (Nat.eqb_spec (PQntuples (Some r)) 1) as [Hn|Hn]; cbn [andb].
    + rewrite strcmp_eqb_eqb.
      destruct (String.eqb_spec (PQgetvalue (Some r) 0 0) "t") as [Ht|Ht].
      * exists 1. split; [reflexivity|]. split; [auto|].
        split; split; try discriminate; try congruence; auto.
      * exists 0. split; [reflexivity|]. split; [auto|].
        split; split; try discriminate; try congruence.
        intros (_ & _ & H). contradiction.
    + exists 0. split; [reflexivity|]. split; [auto|].
      split; split; try discriminate; try congruence.
      intros (_ & H & _). contradiction.
  - exists (-1). split; [reflexivity|]. split; [auto|].
    split; split; try discriminate; try reflexivity.
    intros [H _]. discriminate.
Qed.





(** X17: when the node-list statement fails, or gives no row,
    [get_master_connection] returns [NULL] without asking for any
    connection; [master_conninfo_out] is left as it was and
    [NODE_NOT_FOUND] is behind [master_id]. *)
Theorem get_master_connection_without_candidates conn mid out w :
  let res := exec_result w conn get_master_connection_query in
  PQresultStatus res <> PGRES_TUPLES_OK \/ PQntuples res = 0%nat ->
  get_master_connection conn mid out w
    = (Ret (None, written mid NODE_NOT_FOUND, out),
       EvExec conn get_master_connection_query :: w).
Proof.
  intros res Hnone. unfold get_master_connection. run_driver. fold res.
  destruct (ExecStatusType_eqb (PQresultStatus res) PGRES_TUPLES_OK) eqn:Hok;
    cbn [negb].
  - destruct Hnone as [Hbad|Hzero].
    + destruct (PQresultStatus res); simpl in Hok; congruence.
    + rewrite Hzero. cbn. destruct mid, out; reflexivity.
  - destruct mid; reflexivity.
Qed.








End DriverReading.

Section ConnectionReading.
Context {hdr : repmgr_h} {rec_h : node_record_h} {drv : libpq}.


Lemma has_replication_stored kws :
  has_replication kws = true <-> "replication" ∈ stored kws.
Proof.
  induction kws as [|[kw|] kws IH]; cbn [has_replication stored].
  - split; [discriminate|]. intros H. inversion H.
  - rewrite strcmp_eqb_eqb.
    destruct (String.eqb_spec kw "replication") as [->|Hne].
    + split; [intros _; left | reflexivity].
    + rewrite IH, elem_of_cons. split; [auto|]. intros [H|H]; congruence.
  - split; [discriminate|]. intros H. inversion H.
Qed.

(** X21: [establish_db_connection_by_params] sends no statement on a
    connection whose keywords, up to the first [NULL], name
    [replication]; on any other connection whose status is
    [CONNECTION_OK] the first thing it does is to send the
    [synchronous_commit] statement. *)
Theorem establish_db_connection_by_params_replication kws vals
    exit_on_error w :
  let c := fresh w in
  let w1 := EvConnect (ByParams kws vals) c :: w in
  ("replication" ∈ stored kws ->
   establish_db_connection_by_params kws vals exit_on_error w
     = if (exit_on_error &&
           negb (ConnStatusType_eqb (conn_status w1 c) CONNECTION_OK))%bool
       then (Exit ERR_DB_CON, EvFinish c :: w1)
       else (Ret c, w1)) /\
  ("replication" ∉ stored kws -> conn_status w1 c = CONNECTION_OK ->
   exists o evs,
     establish_db_connection_by_params kws vals exit_on_error w
       = (o, evs ++ EvExec c synchronous_commit_local :: w1)).
Proof.
  intros c w1. unfold establish_db_connection_by_params, set_config,
    _set_config, synchronous_commit_local. run_driver. fold c w1.
  split.
  - intros Hrep. apply has_replication_stored in Hrep. rewrite Hrep.
    destruct (conn_status w1 c), exit_on_error; reflexivity.
  - intros Hrep Hok. rewrite Hok. cbn [ConnStatusType_eqb negb].
    destruct (has_replication kws) eqn:E;
      [apply has_replication_stored in E; contradiction|].
    cbn [negb].
    repeat case_if;
      first [ eexists _, []; reflexivity | eexists _, [_]; reflexivity ].
Qed.

(** X22: [get_server_version] returns -1 and leaves [server_version] alone
    when its statement fails; when the first field of the first row is
    the decimal text of a number, it returns that number and copies that
    same text into [server_version], whatever the second field is. *)
Theorem get_server_version_reads conn server_version w :
  let w' := EvExec conn get_server_version_query :: w in
  (PQresultStatus (exec_result w conn get_server_version_query)
     <> PGRES_TUPLES_OK ->
   get_server_version conn server_version w
     = (Ret (-1, server_version), w')) /\
  (forall n fields rows,
   exec_result w conn get_server_version_query
     = Some (mk_result PGRES_TUPLES_OK ((Some (fmt_i n) :: fields) :: rows)) ->
   get_server_version conn server_version w
     = (Ret (n, written server_version (fmt_i n)), w')).
Proof.
  intros w'. unfold get_server_version. run_driver. split.
  - intros Hbad.
    destruct (PQresultStatus (exec_result w conn get_server_version_query));
      try reflexivity. congruence.
  - intros n fields rows Hres. rewrite Hres.
    cbn [PQresultStatus resultStatus ExecStatusType_eqb negb].
    unfold PQgetvalue. cbn [tuples lookup list_lookup].
    rewrite atoi_fmt_i. destruct server_version; reflexivity.
Qed.

End ConnectionReading.

(* ===================================================================== *)
(** ** More runs on the demo cluster *)
(* ===================================================================== *)

Lemma populate_node_record_round_trip_witness :
  _populate_node_record (hdr := demo_h) (rec_h := demo_rec_h)
    (Some (mk_result PGRES_TUPLES_OK
             [node_info_row (H := demo_h) standby_info]))
    (mk_node_info 0 0 UNKNOWN "x" "y" "z" 0 false true true 9) 0
  = mk_node_info 3 1 STANDBY "node3" "host=node3" "repmgr_slot_3" 50 true
      false false 0.
Proof.
  refine (populate_node_record_round_trip
            (hdr := demo_h) (rec_h := demo_rec_h) standby_info
            (mk_node_info 0 0 UNKNOWN "x" "y" "z" 0 false true true 9)
            PGRES_TUPLES_OK _ _ _); vm_compute; lia.
Defined.

Lemma get_node_record_reads_witness :
  get_node_record (hdr := demo_h) (rec_h := demo_rec_h)
    (drv := record_driver cluster 7) 0%nat 7 standby_info w0
  = (Ret (0, standby_info), EvExec 0%nat (get_node_record_query 7) :: w0) /\
  get_node_record (hdr := demo_h) (rec_h := demo_rec_h)
    (drv := record_driver cluster 3) 0%nat 3 standby_info w0
  = (Ret (1, node_info_of (H := demo_h) (H0 := demo_rec_h) node3),
     EvExec 0%nat (get_node_record_query 3) :: w0) /\
  get_node_record (hdr := demo_h) (rec_h := demo_rec_h)
    (drv := record_driver cluster 3) 0%nat 3 standby_info w5
  = (Ret (-1, standby_info), EvExec 0%nat (get_node_record_query 3) :: w5).
Proof.
  split; [|split].
  - refine (proj1 (get_node_record_reads
                     (hdr := demo_h) (rec_h := demo_rec_h)
                     (drv := record_driver cluster 7)
                     0%nat 7 standby_info w0 cluster) _ _).
    + reflexivity.
    + intros n Hn. vm_compute in Hn.
      destruct Hn as [<-|[<-|[<-|[<-|[]]]]]; discriminate.
  - refine (proj1 (proj2 (get_node_record_reads
                            (hdr := demo_h) (rec_h := demo_rec_h)
                            (drv := record_driver cluster 3)
                            0%nat 3 standby_info w0 cluster))
              node3 _ _ _ _ _ _ _).
    + reflexivity.
    + vm_compute. repeat constructor; intros H;
        repeat (apply elem_of_cons in H as [H|H]; [discriminate|]);
        inversion H.
    + vm_compute. auto.
    + reflexivity.
    + vm_compute. lia.
    + vm_compute. lia.
    + vm_compute. lia.
  - refine (proj2 (proj2 (get_node_record_reads
                            (hdr := demo_h) (rec_h := demo_rec_h)
                            (drv := record_driver cluster 3)
                            0%nat 3 standby_info w5 cluster)) _).
    vm_compute. discriminate.
Defined.

Lemma get_master_node_id_reads_witness :
  exists id,
    get_master_node_id (hdr := demo_h) (drv := demo_driver cluster) 0%nat w0
      = (Ret id, EvExec 0%nat get_master_node_id_query :: w0) /\
    ((forall n, In n cluster -> active_master n = false) -> id = -1) /\
    (forall m, In m cluster -> active_master m = true ->
     exists n, In n cluster /\ r_type n = "master" /\ r_active n = true /\
               id = r_node_id n).
Proof.
  refine (proj1 (get_master_node_id_reads
                   (hdr := demo_h) (drv := demo_driver cluster)
                   0%nat w0 cluster [node1]) _ _).
  - reflexivity.
  - reflexivity.
Defined.

Lemma get_master_connection_without_candidates_witness :
  get_master_connection (hdr := demo_h) (drv := demo_driver cluster_of_witness)
    0%nat (Some 0) (Some "host=node3") w0
  = (Ret (None, Some (-1), Some "host=node3"),
     EvExec 0%nat get_master_connection_query :: w0).
Proof.
  refine (get_master_connection_without_candidates
            (hdr := demo_h) (drv := demo_driver cluster_of_witness)
            0%nat (Some 0) (Some "host=node3") w0 _).
  right. reflexivity.
Defined.

Lemma establish_db_connection_by_params_replication_witness :
  establish_db_connection_by_params (hdr := demo_h) (drv := demo_driver cluster)
    [Some "host"; Some "replication"; None] [Some "node2"; Some "1"; None]
    false w0
  = (Ret 1%nat,
     [EvConnect (ByParams [Some "host"; Some "replication"; None]
                   [Some "node2"; Some "1"; None]) 1%nat] ++ w0) /\
  exists o evs,
    establish_db_connection_by_params (hdr := demo_h)
      (drv := demo_driver cluster)
      [Some "host"; None] [Some "node2"; None] false w0
    = (o, evs ++ EvExec 1%nat (synchronous_commit_local (hdr := demo_h))
              :: EvConnect (ByParams [Some "host"; None] [Some "node2"; None])
                   1%nat :: w0).
Proof.
  split.
  - refine (proj1 (establish_db_connection_by_params_replication
                     (hdr := demo_h) (drv := demo_driver cluster)
                     [Some "host"; Some "replication"; None]
                     [Some "node2"; Some "1"; None] false w0) _).
    right. left.
  - refine (proj2 (establish_db_connection_by_params_replication
                     (hdr := demo_h) (drv := demo_driver cluster)
                     [Some "host"; None] [Some "node2"; None] false w0) _ _).
    + intros H. apply elem_of_cons in H as [H|H]; [discriminate|inversion H].
    + reflexivity.
Defined.

Lemma get_server_version_reads_witness :
  get_server_version (drv := record_driver cluster 3)
    0%nat (Some EmptyString) w0
  = (Ret (90605, Some "90605"), EvExec 0%nat get_server_version_query :: w0) /\
  get_server_version (drv := record_driver cluster 3)
    0%nat (Some "9.5") w5
  = (Ret (-1, Some "9.5"), EvExec 0%nat get_server_version_query :: w5).
Proof.
  split.
  - refine (proj2 (get_server_version_reads
                     (drv := record_driver cluster 3)
                     0%nat (Some EmptyString) w0) 90605 [Some "9.6.5"] [] _).
    reflexivity.
  - refine (proj1 (get_server_version_reads
                     (drv := record_driver cluster 3)
                     0%nat (Some "9.5") w5) _).
    vm_compute. discriminate.
Defined.
